(** * Autodelegate daemon: the task-processing engine

    A shallow embedding of [bin/autodelegate-daemon.mjs] — the queue
    store, the agent registry, the router, the execution engine, the task
    state machine, the command line, the configuration and the startup —
    together with the properties the specification states about them and
    the properties that the code shows besides.

    Conventions of the embedding:
    - a JavaScript value read from a JSON document is a [jsval]; numbers
      are the integers (the counters [attempt] and [maxAttempts], exit
      codes and millisecond timestamps are all integers), and [NaN] is
      the missing result of [Number];
    - a JavaScript string is a [string], one character per code unit;
    - the file system is a finite map from directory paths to directories,
      a directory a finite map from file names to file contents; the path
      [path.join(dir, name)] is addressed as the pair [(dir, name)];
    - the builtins of the runtime and the behaviour of the host
      ([JSON.parse], the clock, child processes, I/O failures) are the
      fields of a [platform] record over which everything is quantified;
    - a function with side effects is a state transformer over [world]
      that returns either a value or a thrown error; the file system
      changes by the calls of the daemon only, what a child process does
      to the files is not represented;
    - a number of the command line is a [number]: [NaN], an infinity or a
      rational. *)

From Stdlib Require Import Ascii String Sorted OrderedTypeEx QArith_base.
From stdpp Require Import gmap strings list pretty.

Open Scope Z_scope.
Open Scope string_scope.
Open Scope list_scope.

(** ** JavaScript values *)

#[warnings="-register-all"]
Inductive jsval : Type :=
| JUndefined
| JNull
| JBool (b : bool)
| JNum (n : Z)
| JStr (s : string)
| JArr (items : list jsval)
| JObj (fields : list (string * jsval)).

(** The own properties of an object, in insertion order. *)
Abbreviation obj := (list (string * jsval)).

Module Js.

(** [o.k]: the value of the own property [k], [undefined] if absent. *)
Fixpoint get (o : obj) (k : string) : jsval :=
  match o with
  | [] => JUndefined
  | (k', v) :: rest => if String.eqb k' k then v else get rest k
  end.

(** [o.k = v]: an existing property keeps its place, a new one goes last. *)
Fixpoint set (o : obj) (k : string) (v : jsval) : obj :=
  match o with
  | [] => [(k, v)]
  | (k', v') :: rest =>
      if String.eqb k' k then (k, v) :: rest else (k', v') :: set rest k v
  end.

(** The named properties of any non-nullish value: those of an object;
    an array, string, number or boolean has none of the names the
    daemon reads ([id], [prompt], [agent], ...). *)
Definition props (v : jsval) : obj :=
  match v with
  | JObj fields => fields
  | _ => []
  end.

(** ToBoolean. *)
Definition truthy (v : jsval) : bool :=
  match v with
  | JUndefined | JNull => false
  | JBool b => b
  | JNum n => negb (n =? 0)%Z
  | JStr s => negb (String.eqb s "")
  | JArr _ | JObj _ => true
  end.

(** [a === b] for values that come from two different JSON documents:
    primitives compare by value, arrays and objects by identity, and two
    documents never share an array or an object. *)
Definition strict_eq (a b : jsval) : bool :=
  match a, b with
  | JUndefined, JUndefined => true
  | JNull, JNull => true
  | JBool x, JBool y => Bool.eqb x y
  | JNum x, JNum y => (x =? y)%Z
  | JStr x, JStr y => String.eqb x y
  | _, _ => false
  end.

(** [a ?? b]. *)
Definition nullish (a b : jsval) : jsval :=
  match a with
  | JUndefined | JNull => b
  | _ => a
  end.

(** [a || b]. *)
Definition or_else (a b : jsval) : jsval :=
  if truthy a then a else b.

Definition join (sep : string) (parts : list string) : string :=
  match parts with
  | [] => ""
  | p :: ps => fold_left (fun acc q => acc +:+ sep +:+ q) ps p
  end.

(** [String(v)], also the conversion inside a template literal. *)
Fixpoint to_string (v : jsval) : string :=
  match v with
  | JUndefined => "undefined"
  | JNull => "null"
  | JBool true => "true"
  | JBool false => "false"
  | JNum n => pretty n
  | JStr s => s
  | JArr items =>
      join ","
        ((fix each (l : list jsval) : list string :=
            match l with
            | [] => []
            | JUndefined :: l' => "" :: each l'
            | JNull :: l' => "" :: each l'
            | x :: l' => to_string x :: each l'
            end) items)
  | JObj _ => "[object Object]"
  end.

End Js.

(** ** Strings *)

Module Str.

Definition code (c : ascii) : N := N_of_ascii c.

(** White space and line terminators among the code units below 256:
    TAB, LF, VT, FF, CR, SP and NBSP. *)
Definition is_whitespace (c : ascii) : bool :=
  let n := code c in
  ((9 <=? n) && (n <=? 13) || (n =? 32) || (n =? 160))%N.

Fixpoint trim_start (l : list ascii) : list ascii :=
  match l with
  | [] => []
  | c :: rest => if is_whitespace c then trim_start rest else l
  end.

(** [s.trim()]. *)
Definition trim (s : string) : string :=
  string_of_list_ascii
    (rev (trim_start (rev (trim_start (list_ascii_of_string s))))).


(** [s.endsWith(suffix)]. *)
Definition ends_with (s suffix : string) : bool :=
  String.prefix (String.rev suffix) (String.rev s).

(** [s.slice(0, n)]. *)
Definition slice0 (n : N) (s : string) : string := String.substring 0 (N.to_nat n) s.


Fixpoint replicate (c : ascii) (n : nat) : string :=
  match n with
  | O => EmptyString
  | S n' => String c (replicate c n')
  end.

(** The string of [n] times the character [c]. *)
Definition repeat (c : ascii) (n : N) : string := replicate c (N.to_nat n).

End Str.

(** ** Agents and the router *)

Inductive PromptMode : Type := stdin | argument.

(** An entry of the registry: the object
    [{...agent, promptMode, defaultArgs, useWorktree}] that [loadAgents]
    stores, as the properties of the parsed definition and the three
    normalised ones that shadow them. *)
Record Agent : Type := mkAgent {
  definition : obj;
  promptMode : PromptMode;
  defaultArgs : list string;
  useWorktree : bool;
}.

Definition name (a : Agent) : jsval := Js.get (definition a) "name".
Definition command (a : Agent) : jsval := Js.get (definition a) "command".

(** [for (const name of order) { const found = agents.find(...); if (found) return found; }] *)
Fixpoint firstRouted (order : list jsval) (agents : list Agent) : option Agent :=
  match order with
  | [] => None
  | n :: rest =>
      match find (fun agent => Js.strict_eq (name agent) n) agents with
      | Some found => Some found
      | None => firstRouted rest agents
      end
  end.

(** [pickAgent(task, agents, config)]; [None] is [null]. *)
Definition pickAgent (task : obj) (agents : list Agent) (config : obj) : option Agent :=
  match agents with
  | [] => None
  | first :: _ =>
      match (if Js.truthy (Js.get task "agent")
             then find (fun agent => Js.strict_eq (name agent) (Js.get task "agent")) agents
             else None) with
      | Some named => Some named
      | None =>
          match (if Js.truthy (Js.get task "tool")
                 then find (fun agent => Js.strict_eq (command agent) (Js.get task "tool")) agents
                 else None) with
          | Some byTool => Some byTool
          | None =>
              match (match Js.get config "routingOrder" with
                     | JArr order => firstRouted order agents
                     | _ => None
                     end) with
              | Some found => Some found
              | None => Some first
              end
          end
      end
  end.

(** ** The host: results, the world and the platform *)

(** The result of a JavaScript computation: a value, or a thrown error
    (kept as the text [String(error)]). *)
Inductive outcome (A : Type) : Type :=
| Ok (a : A)
| Throw (error : string).
Arguments Ok {A} a.
Arguments Throw {A} error.

(** One call of [spawnSync]. *)
Record SpawnCall : Type := mkCall {
  call_command : jsval;
  call_args : list string;
  call_input : option string;
  call_cwd : string;
  call_env : list jsval;
}.

(** What [spawnSync] returns; [status] is [None] for [null] (the child
    was killed by a signal or never started), and an output that is
    [null] reads as the empty string, as under [result.stdout || '']. *)
Record SpawnResult : Type := mkResult {
  status : option Z;
  signal : option string;
  stdout : string;
  stderr : string;
}.

Record world : Type := mkWorld {
  fs : gmap string (gmap string string);
  events : list (string * jsval);   (* (log path, payload), one appended line each *)
  console : list string;
  spawned : list SpawnCall;          (* the agent and git processes started so far *)
  ticks : nat;                       (* clock readings taken so far *)
  writes : nat;                      (* file-system mutations attempted so far *)
}.

Record platform : Type := mkPlatform {
  JSON_parse : string -> outcome jsval;
  JSON_stringify : jsval -> string;            (* [JSON.stringify(v, null, 2)] *)
  Number_of_string : string -> option Z;       (* [Number(s)], [None] for [NaN] *)
  localeCompare : string -> string -> Z;
  toISOString : Z -> string;
  path_resolve : string -> string -> string;
  branch_prefix_env : option string;           (* [AUTO_DELEGATE_BRANCH_PREFIX] *)
  clock : nat -> Z;                            (* the n-th reading of the clock *)
  which : string -> outcome bool;              (* [spawnSync('which', [c]).status === 0] *)
  child : nat -> outcome SpawnResult;          (* how the n-th agent or git process ends *)
  io_error : nat -> option string;             (* the error of the n-th mutation, if it fails *)
}.

Definition set_fs (w : world) (x : gmap string (gmap string string)) : world :=
  mkWorld x (events w) (console w) (spawned w) (ticks w) (writes w).
Definition add_event (w : world) (logPath : string) (payload : jsval) : world :=
  mkWorld (fs w) (events w ++ [(logPath, payload)]) (console w) (spawned w) (ticks w) (writes w).
Definition add_console (w : world) (lines : list string) : world :=
  mkWorld (fs w) (events w) (console w ++ lines) (spawned w) (ticks w) (writes w).
Definition add_spawned (w : world) (c : SpawnCall) : world :=
  mkWorld (fs w) (events w) (console w) (spawned w ++ [c]) (ticks w) (writes w).
Definition next_tick (w : world) : world :=
  mkWorld (fs w) (events w) (console w) (spawned w) (S (ticks w)) (writes w).
Definition next_write (w : world) : world :=
  mkWorld (fs w) (events w) (console w) (spawned w) (ticks w) (S (writes w)).

(** ** The file system *)

Module Fs.

Definition file (x : gmap string (gmap string string)) (dir fileName : string) : option string :=
  match x !! dir with
  | Some d => d !! fileName
  | None => None
  end.

Definition remove (x : gmap string (gmap string string)) (dir fileName : string) :=
  match x !! dir with
  | Some d => <[dir := delete fileName d]> x
  | None => x
  end.

Definition put (x : gmap string (gmap string string)) (dir fileName content : string) :=
  match x !! dir with
  | Some d => <[dir := <[fileName := content]> d]> x
  | None => x
  end.

(** [rename(2)]: the source must exist, and so must the target directory;
    an existing target is replaced. *)
Definition rename (x : gmap string (gmap string string))
    (dir fileName dir' fileName' : string) : outcome (gmap string (gmap string string)) :=
  match file x dir fileName, x !! dir' with
  | Some content, Some _ => Ok (put (remove x dir fileName) dir' fileName' content)
  | _, _ => Throw "Error: ENOENT: no such file or directory, rename"
  end.

Definition write (x : gmap string (gmap string string))
    (dir fileName content : string) : outcome (gmap string (gmap string string)) :=
  match x !! dir with
  | Some _ => Ok (put x dir fileName content)
  | None => Throw "Error: ENOENT: no such file or directory, open"
  end.

Definition mkdir (x : gmap string (gmap string string)) (dir : string) :=
  match x !! dir with
  | Some _ => x
  | None => <[dir := ∅]> x
  end.

End Fs.

Definition path_join (dir fileName : string) : string := dir +:+ "/" +:+ fileName.

(** ** Effects *)

Definition M (A : Type) : Type := world -> outcome A * world.

Definition ret {A} (a : A) : M A := fun w => (Ok a, w).
Definition throw {A} (error : string) : M A := fun w => (Throw error, w).
Definition bind {A B} (m : M A) (k : A -> M B) : M B := fun w =>
  match m w with
  | (Ok a, w') => k a w'
  | (Throw error, w') => (Throw error, w')
  end.
(** [try { m }]: the result of [m], thrown or not, as a value. *)
Definition trying {A} (m : M A) : M (outcome A) := fun w =>
  let (r, w') := m w in (Ok r, w').
Definition lift {A} (r : outcome A) : M A := fun w => (r, w).

Notation "'let*' x ':=' m 'in' k" := (bind m (fun x => k))
  (at level 10, x name, m at level 100, k at level 200).

(** ** Names: [slugify], [tsCompact], [basename] *)

Module Slug.

Definition lower (c : ascii) : ascii :=
  let n := Str.code c in
  if ((65 <=? n) && (n <=? 90))%N then ascii_of_N (n + 32) else c.

(** The class [[a-z0-9]]. *)
Definition is_alnum (c : ascii) : bool :=
  let n := Str.code c in
  ((97 <=? n) && (n <=? 122) || (48 <=? n) && (n <=? 57))%N.

(** [.replace(/[^a-z0-9]+/g, '-')]: [in_run] tells that the previous
    character was already replaced. *)
Fixpoint squeeze (in_run : bool) (s : string) : string :=
  match s with
  | EmptyString => EmptyString
  | String c rest =>
      if is_alnum c then String c (squeeze false rest)
      else if in_run then squeeze true rest
      else String "-" (squeeze true rest)
  end.

Fixpoint drop_dashes (s : string) : string :=
  match s with
  | String "-" rest => drop_dashes rest
  | _ => s
  end.

(** [.replace(/^-+|-+$/g, '')]. *)
Definition strip_dashes (s : string) : string :=
  String.rev (drop_dashes (String.rev (drop_dashes s))).

Fixpoint map_chars (f : ascii -> ascii) (s : string) : string :=
  match s with
  | EmptyString => EmptyString
  | String c rest => String (f c) (map_chars f rest)
  end.

Definition slugify (value : jsval) : string :=
  let text := Js.to_string (Js.or_else value (JStr "task")) in
  let slug := Str.slice0 60 (strip_dashes (squeeze false (map_chars lower text))) in
  if String.eqb slug "" then "task" else slug.

(** [.replace(/[-:.]/g, '')]. *)
Fixpoint drop_punctuation (s : string) : string :=
  match s with
  | EmptyString => EmptyString
  | String c rest =>
      if (Ascii.eqb c "-" || Ascii.eqb c ":" || Ascii.eqb c ".")%bool
      then drop_punctuation rest
      else String c (drop_punctuation rest)
  end.

(** [.replace(from, to)] with a one-character pattern: the first
    occurrence only. *)
Fixpoint replace_first (from : ascii) (to : string) (s : string) : string :=
  match s with
  | EmptyString => EmptyString
  | String c rest =>
      if Ascii.eqb c from then to +:+ rest else String c (replace_first from to rest)
  end.

Definition compact (iso : string) : string :=
  replace_first "Z" "Z" (replace_first "T" "-" (drop_punctuation iso)).

(** [path.basename(fileName, ext)] for a name without directories: the
    extension is removed when the name ends with it, and a name that is the
    extension itself gives the empty string. *)
Definition basename (fileName ext : string) : string :=
  if Str.ends_with fileName ext
  then String.substring 0 (String.length fileName - String.length ext) fileName
  else fileName.

(** [branch.replace(/\//g, '__')]. *)
Fixpoint flatten_slashes (s : string) : string :=
  match s with
  | EmptyString => EmptyString
  | String c rest =>
      if Ascii.eqb c "/" then "__" +:+ flatten_slashes rest
      else String c (flatten_slashes rest)
  end.

End Slug.

(** ** The daemon *)

Record Dirs : Type := mkDirs {
  inbox : string;
  processing : string;
  completed : string;
  failed : string;
  runs : string;
  worktrees : string;
}.

(** The directories of a home, as [main] lays them out. *)
Definition homeDirs (homeDir : string) : Dirs :=
  mkDirs (path_join homeDir "inbox") (path_join homeDir "processing")
         (path_join homeDir "completed") (path_join homeDir "failed")
         (path_join homeDir "runs") (path_join homeDir "worktrees").

Record Context : Type := mkContext {
  config : obj;
  dirs : Dirs;
  agents : list Agent;
  repoRoot : string;
  logPath : string;
}.

(** [Number(v)]; [None] is [NaN]. An array or an object is converted
    through its string. *)
Definition Number (number_of_string : string -> option Z) (v : jsval) : option Z :=
  match v with
  | JUndefined => None
  | JNull => Some 0
  | JBool true => Some 1
  | JBool false => Some 0
  | JNum n => Some n
  | JStr s => number_of_string s
  | JArr _ | JObj _ => number_of_string (Js.to_string v)
  end.

(** [a + 1] on a number that may be [NaN]. *)
Definition plus_one (a : option Z) : option Z :=
  match a with
  | Some x => Some (x + 1)%Z
  | None => None
  end.

(** [a + 1 < m] on numbers that may be [NaN]. *)
Definition succ_lt (a m : option Z) : bool :=
  match a, m with
  | Some x, Some y => (x + 1 <? y)%Z
  | _, _ => false
  end.


(** [`exit_${result.status}`]. *)
Definition exit_reason (r : SpawnResult) : string :=
  "exit_" +:+ match status r with Some n => pretty n | None => "null" end.

(** A stable insertion sort: [names.sort((a, b) => cmp(a, b))]. *)
Fixpoint insert_by (cmp : string -> string -> Z) (x : string) (l : list string) : list string :=
  match l with
  | [] => [x]
  | y :: rest => if (cmp x y <=? 0)%Z then x :: l else y :: insert_by cmp x rest
  end.

Definition sort_by (cmp : string -> string -> Z) (l : list string) : list string :=
  foldr (insert_by cmp) [] l.

Section Daemon.

Variable E : platform.

(** *** Primitives *)

(** [Date.now()]. *)
Definition Date_now : M Z := fun w => (Ok (clock E (ticks w)), next_tick w).

(** [new Date().toISOString()]. *)
Definition nowIso : M string := let* t := Date_now in ret (toISOString E t).

Definition tsCompact : M string := let* iso := nowIso in ret (Slug.compact iso).

(** [log(message, extra)]; [extra] is printed when it is a non-empty string. *)
Definition log (message extra : string) : M unit :=
  let* iso := nowIso in
  fun w => (Ok tt, add_console w
    (("[" +:+ iso +:+ "] " +:+ message) :: if String.eqb extra "" then [] else [extra])).

(** A mutation of the file system: it fails when the host says so, or
    when the operation itself cannot be done. *)
Definition mutate (op : gmap string (gmap string string) ->
                        outcome (gmap string (gmap string string))) : M unit := fun w =>
  match io_error E (writes w) with
  | Some error => (Throw error, next_write w)
  | None =>
      match op (fs w) with
      | Ok x => (Ok tt, set_fs (next_write w) x)
      | Throw error => (Throw error, next_write w)
      end
  end.

Definition renameSync (dir fileName dir' fileName' : string) : M unit :=
  mutate (fun x => Fs.rename x dir fileName dir' fileName').

Definition writeFileSync (dir fileName content : string) : M unit :=
  mutate (fun x => Fs.write x dir fileName content).

(** [fs.mkdirSync(dirPath, { recursive: true })]. *)
Definition ensureDir (dirPath : string) : M unit :=
  mutate (fun x => Ok (Fs.mkdir x dirPath)).

(** [fs.appendFileSync(logPath, JSON.stringify(payload) + '\n')]. *)
Definition appendEvent (logPath : string) (payload : jsval) : M unit := fun w =>
  match io_error E (writes w) with
  | Some error => (Throw error, next_write w)
  | None => (Ok tt, add_event (next_write w) logPath payload)
  end.

Definition spawnSync (c : SpawnCall) : M SpawnResult := fun w =>
  (child E (length (spawned w)), add_spawned w c).

Definition readJson (dir fileName : string) : M jsval := fun w =>
  match Fs.file (fs w) dir fileName with
  | Some text => (JSON_parse E text, w)
  | None => (Throw "Error: ENOENT: no such file or directory, open", w)
  end.

Definition writeJson (dir fileName : string) (value : jsval) : M unit :=
  writeFileSync dir fileName (JSON_stringify E value +:+ String "010" "").

Definition listFiles (dirPath suffix : string) : M (list string) := fun w =>
  match fs w !! dirPath with
  | None => (Ok [], w)
  | Some d =>
      (Ok (sort_by (localeCompare E)
             (List.filter (fun name => Str.ends_with name suffix) (map_to_list d).*1)), w)
  end.

(** [commandExists(command)]: the probe only reads the host, so its
    answer is a function of the command it is asked about. *)
Definition commandExists (command : jsval) : M bool :=
  lift (which E (Js.to_string command)).

Definition branchPrefix : string :=
  let raw := match branch_prefix_env E with
             | Some s => if String.eqb s "" then "autodelegate/" else s
             | None => "autodelegate/"
             end in
  if Str.ends_with raw "/" then raw else raw +:+ "/".

Definition moveFileToDir (sourceDir baseName targetDir prefix : string) : M string :=
  let* _ := ensureDir targetDir in
  let targetName := prefix +:+ "-" +:+ baseName in
  let* _ := renameSync sourceDir baseName targetDir targetName in
  ret (path_join targetDir targetName).

(** *** The agent registry *)

(** The [Map] of [loadAgents], keyed by [agent.name]: [set] on a key
    that is present replaces the value where it stands, a new key goes
    last. Keys are compared as [Map] does, which on the values of JSON
    documents is strict equality. *)
Fixpoint map_set (byName : list (jsval * Agent)) (key : jsval) (value : Agent)
    : list (jsval * Agent) :=
  match byName with
  | [] => [(key, value)]
  | (key', value') :: rest =>
      if Js.strict_eq key' key then (key', value) :: rest
      else (key', value') :: map_set rest key value
  end.

(** The entry [{...agent, promptMode, defaultArgs, useWorktree}]. *)
Definition normalise (agent : obj) : Agent :=
  mkAgent agent
    (if Js.strict_eq (Js.get agent "promptMode") (JStr "stdin") then stdin else argument)
    (match Js.get agent "defaultArgs" with
     | JArr items => map Js.to_string items
     | _ => []
     end)
    (negb (Js.strict_eq (Js.get agent "useWorktree") (JBool false))).

(** The body of the [try] in [loadAgents] for one file; [None] is
    [continue]. Reading a property of [null] throws. *)
Definition loadAgentFile (agentsDir fileName : string) : M (option Agent) :=
  let* parsed := readJson agentsDir fileName in
  match parsed with
  | JNull | JUndefined =>
      throw "TypeError: Cannot read properties of null (reading 'enabled')"
  | _ =>
      let agent := Js.props parsed in
      if Js.strict_eq (Js.get agent "enabled") (JBool false) then ret None
      else if negb (Js.truthy (Js.get agent "name")) || negb (Js.truthy (Js.get agent "command"))
      then
        let* _ := log ("Skipping invalid agent config: " +:+ path_join agentsDir fileName) "" in
        ret None
      else
        let* installed := commandExists (Js.get agent "command") in
        if negb installed then ret None
        else ret (Some (normalise agent))
  end.

Fixpoint loadAgentFiles (agentsDir : string) (files : list string)
    (byName : list (jsval * Agent)) : M (list (jsval * Agent)) :=
  match files with
  | [] => ret byName
  | fileName :: rest =>
      let* loaded := trying (loadAgentFile agentsDir fileName) in
      match loaded with
      | Ok (Some agent) => loadAgentFiles agentsDir rest (map_set byName (name agent) agent)
      | Ok None => loadAgentFiles agentsDir rest byName
      | Throw error =>
          let* _ := log ("Failed to load agent config: " +:+ path_join agentsDir fileName) error in
          loadAgentFiles agentsDir rest byName
      end
  end.

Fixpoint loadAgentDirs (agentsDirs : list string) (byName : list (jsval * Agent))
    : M (list (jsval * Agent)) :=
  match agentsDirs with
  | [] => ret byName
  | agentsDir :: rest =>
      let* present := (fun w => (Ok (bool_decide (is_Some (fs w !! agentsDir))), w)) in
      if String.eqb agentsDir "" || negb present then loadAgentDirs rest byName
      else
        let* files := listFiles agentsDir ".agent.json" in
        let* byName' := loadAgentFiles agentsDir files byName in
        loadAgentDirs rest byName'
  end.

Definition loadAgents (agentsDirs : list string) : M (list Agent) :=
  let* byName := loadAgentDirs agentsDirs [] in
  ret (byName.*2).

(** *** Worktrees *)

Definition createWorktree (repoRoot worktreesDir : string) (agentName taskId : jsval)
    : M (string * string) :=
  let* _ := ensureDir worktreesDir in
  let* stamp := Date_now in
  let branch := branchPrefix +:+ Slug.slugify agentName +:+ "-" +:+ Slug.slugify taskId
                +:+ "-" +:+ pretty stamp in
  let worktreePath := path_join worktreesDir (Slug.flatten_slashes branch) in
  let* result := spawnSync
    (mkCall (JStr "git") ["worktree"; "add"; "-b"; branch; worktreePath] None repoRoot []) in
  match status result with
  | Some 0 => ret (branch, worktreePath)
  | _ =>
      throw ("Error: git worktree add failed: " +:+
             Str.trim (if String.eqb (stderr result) "" then stdout result else stderr result))
  end.

Definition cleanupWorktree (repoRoot worktreePath : string) : M unit :=
  let* result := spawnSync
    (mkCall (JStr "git") ["worktree"; "remove"; "--force"; worktreePath] None repoRoot []) in
  match status result with
  | Some 0 => ret tt
  | _ =>
      log ("Failed to remove worktree " +:+ worktreePath)
          (Str.trim (if String.eqb (stderr result) "" then stdout result else stderr result))
  end.

(** [path.isAbsolute] throws on a value that is not a string. *)
Definition resolveRunCwd (repoRoot : string) (worktreePath : option string) (taskCwd : jsval)
    : outcome string :=
  let base := match worktreePath with
              | Some p => if String.eqb p "" then repoRoot else p
              | None => repoRoot
              end in
  if negb (Js.truthy taskCwd) then Ok base
  else match taskCwd with
       | JStr s => Ok (if String.prefix "/" s then s else path_resolve E base s)
       | _ => Throw "TypeError [ERR_INVALID_ARG_TYPE]: The path argument must be of type string"
       end.

(** *** Recovery *)

Fixpoint recoverEach (processingDir inboxDir : string) (stale : list string) : M unit :=
  match stale with
  | [] => ret tt
  | fileName :: rest =>
      let* _ := renameSync processingDir fileName inboxDir ("recovered-" +:+ fileName) in
      recoverEach processingDir inboxDir rest
  end.

Definition recoverProcessing (processingDir inboxDir : string) : M unit :=
  let* stale := listFiles processingDir ".json" in
  let* _ := recoverEach processingDir inboxDir stale in
  if (0 <? length stale)%nat
  then log ("Recovered " +:+ pretty (length stale) +:+ " task(s) from processing back to inbox.") ""
  else ret tt.

(** *** The execution engine *)

Definition commandArgs (task : obj) : list string :=
  match Js.get task "commandArgs" with
  | JArr items => map Js.to_string items
  | _ => []
  end.

Definition runAgent (agent : Agent) (task : obj) (prompt cwd : string) : M SpawnResult :=
  let args := (defaultArgs agent ++ commandArgs task)%list in
  let env := [Js.or_else (Js.get (definition agent) "env") (JObj []);
              Js.or_else (Js.get task "env") (JObj [])] in
  match promptMode agent with
  | stdin => spawnSync (mkCall (command agent) args (Some prompt) cwd env)
  | argument => spawnSync (mkCall (command agent) (args ++ [prompt])%list None cwd env)
  end.

(** *** The task state machine: [processOneTask] *)

(** A number inside a payload; [NaN] is written as [null]. *)
Definition js_num (n : option Z) : jsval :=
  match n with Some z => JNum z | None => JNull end.

(** [worktree?.branch || null] and [worktree?.worktreePath || null]. *)
Definition or_null (s : option string) : jsval :=
  match s with
  | Some x => if String.eqb x "" then JNull else JStr x
  | None => JNull
  end.

Definition newline : string := String "010" "".

(** Line 373: [task.id || path.basename(fileName, '.json')]. *)
Definition taskId_of (parsedTask : jsval) (fileName : string) : jsval :=
  Js.or_else (Js.get (Js.props parsedTask) "id") (JStr (Slug.basename fileName ".json")).

(** Line 374: [typeof task.prompt === 'string' ? task.prompt : '']. *)
Definition prompt_of (parsedTask : jsval) : string :=
  match Js.get (Js.props parsedTask) "prompt" with
  | JStr s => s
  | _ => ""
  end.

(** Lines 428-429: the two counters. *)
Definition maxAttempts_of (context : Context) (task : obj) : option Z :=
  Number (Number_of_string E)
    (Js.nullish (Js.get task "maxAttempts")
       (Js.nullish (Js.get (config context) "defaultMaxAttempts") (JNum 1))).

Definition attempt_of (task : obj) : option Z :=
  Number (Number_of_string E) (Js.nullish (Js.get task "attempt") (JNum 0)).

(** Lines 362-370: the claimed file does not parse. *)
Definition failInvalidJson (context : Context) (fileName : string) (loopStamp : Z)
    (error : string) : M bool :=
  let* failedPath := moveFileToDir (processing (dirs context)) fileName
                       (failed (dirs context)) (pretty loopStamp) in
  let* at_ := nowIso in
  let* _ := appendEvent (logPath context)
    (JObj [("at", JStr at_); ("status", JStr "failed"); ("reason", JStr "invalid_json");
           ("file", JStr failedPath); ("error", JStr error)]) in
  ret true.

(** Lines 376-384: the prompt is missing or blank. *)
Definition failMissingPrompt (context : Context) (fileName : string) (loopStamp : Z)
    (taskId : jsval) : M bool :=
  let* failedPath := moveFileToDir (processing (dirs context)) fileName
                       (failed (dirs context)) (pretty loopStamp) in
  let* at_ := nowIso in
  let* _ := appendEvent (logPath context)
    (JObj [("at", JStr at_); ("status", JStr "failed"); ("reason", JStr "missing_prompt");
           ("taskId", taskId); ("file", JStr failedPath)]) in
  ret true.

(** [if (config[flag] && worktree) { cleanupWorktree(repoRoot, worktree.worktreePath); }] *)
Definition cleanupIf (context : Context) (flag : string)
    (worktree : option (string * string)) : M unit :=
  match worktree with
  | Some (_, worktreePath) =>
      if Js.truthy (Js.get (config context) flag)
      then cleanupWorktree (repoRoot context) worktreePath
      else ret tt
  | None => ret tt
  end.

(** Lines 428-486: the agent has returned [result]; move the task to
    its next state. *)
Definition settle (context : Context) (fileName : string) (task : obj) (taskId : jsval)
    (agent : Agent) (runDir : string) (worktree : option (string * string))
    (result : SpawnResult) : M bool :=
  let maxAttempts := maxAttempts_of context task in
  let attempt := attempt_of task in
  match status result with
  | Some 0 =>
      let* stamp := Date_now in
      let* completedPath := moveFileToDir (processing (dirs context)) fileName
                              (completed (dirs context)) (pretty stamp) in
      let* at_ := nowIso in
      let* _ := appendEvent (logPath context)
        (JObj [("at", JStr at_); ("status", JStr "completed"); ("taskId", taskId);
               ("taskFile", JStr completedPath); ("runDir", JStr runDir);
               ("agent", name agent); ("tool", command agent);
               ("branch", or_null (fst <$> worktree))]) in
      let* _ := cleanupIf context "cleanupWorktreeOnSuccess" worktree in
      ret true
  | _ =>
      if succ_lt attempt maxAttempts then
        let task1 := Js.set task "attempt" (js_num (plus_one attempt)) in
        let task2 := Js.set task1 "lastError"
          (JStr (Str.slice0 5000
                   (if String.eqb (stderr result) "" then exit_reason result
                    else stderr result))) in
        let* tried := nowIso in
        let task3 := Js.set task2 "lastTriedAt" (JStr tried) in
        let* _ := writeJson (processing (dirs context)) fileName (JObj task3) in
        let* stamp := Date_now in
        let* requeuedPath := moveFileToDir (processing (dirs context)) fileName
                               (inbox (dirs context)) ("retry-" +:+ pretty stamp) in
        let* at_ := nowIso in
        let* _ := appendEvent (logPath context)
          (JObj [("at", JStr at_); ("status", JStr "retrying"); ("taskId", taskId);
                 ("attempt", Js.get task3 "attempt"); ("maxAttempts", js_num maxAttempts);
                 ("taskFile", JStr requeuedPath); ("runDir", JStr runDir);
                 ("agent", name agent)]) in
        let* _ := cleanupIf context "cleanupWorktreeOnFailure" worktree in
        ret true
      else
        let* stamp := Date_now in
        let* failedPath := moveFileToDir (processing (dirs context)) fileName
                             (failed (dirs context)) (pretty stamp) in
        let* at_ := nowIso in
        let* _ := appendEvent (logPath context)
          (JObj [("at", JStr at_); ("status", JStr "failed"); ("reason", JStr (exit_reason result));
                 ("taskId", taskId); ("taskFile", JStr failedPath); ("runDir", JStr runDir);
                 ("agent", name agent); ("tool", command agent);
                 ("branch", or_null (fst <$> worktree))]) in
        let* _ := cleanupIf context "cleanupWorktreeOnFailure" worktree in
        ret true
  end.

(** Lines 406-486: run the agent, write the run record, settle. *)
Definition execute (context : Context) (fileName : string) (task : obj) (taskId : jsval)
    (prompt : string) (agent : Agent) (runDir : string) (startedAt : Z)
    (worktree : option (string * string)) : M bool :=
  let* runCwd := lift (resolveRunCwd (repoRoot context) (snd <$> worktree) (Js.get task "cwd")) in
  let* result := runAgent agent task prompt runCwd in
  let* _ := writeFileSync runDir "stdout.log" (stdout result) in
  let* _ := writeFileSync runDir "stderr.log" (stderr result) in
  let* finishedAt := nowIso in
  let* finished := Date_now in
  let* _ := writeJson runDir "summary.json"
    (JObj [("status", JStr (match status result with Some 0 => "completed" | _ => "failed" end));
           ("taskId", taskId); ("agent", name agent); ("tool", command agent);
           ("startedAt", JStr (toISOString E startedAt)); ("finishedAt", JStr finishedAt);
           ("durationMs", JNum (finished - startedAt));
           ("exitCode", js_num (status result));
           ("signal", match signal result with Some s => JStr s | None => JNull end);
           ("runDir", JStr runDir);
           ("worktree", or_null (snd <$> worktree));
           ("branch", or_null (fst <$> worktree))]) in
  settle context fileName task taskId agent runDir worktree result.

(** Lines 487-501: the [catch] of the outer [try]. [worktree] is the
    value the variable holds when the error is thrown. *)
Definition onRuntimeException (context : Context) (fileName : string) (taskId : jsval)
    (agent : Agent) (runDir : string) (worktree : option (string * string))
    (error : string) : M bool :=
  let* stamp := Date_now in
  let* failedPath := moveFileToDir (processing (dirs context)) fileName
                       (failed (dirs context)) (pretty stamp) in
  let* at_ := nowIso in
  let* _ := appendEvent (logPath context)
    (JObj [("at", JStr at_); ("status", JStr "failed"); ("reason", JStr "runtime_exception");
           ("taskId", taskId); ("taskFile", JStr failedPath); ("runDir", JStr runDir);
           ("error", JStr error); ("agent", name agent); ("tool", command agent);
           ("branch", or_null (fst <$> worktree))]) in
  ret true.

(** Lines 357-502: the file [fileName] has been claimed. *)
Definition processClaimed (context : Context) (fileName : string) : M bool :=
  let* loopStamp := Date_now in
  let* parsed := trying (readJson (processing (dirs context)) fileName) in
  match parsed with
  | Throw error => failInvalidJson context fileName loopStamp error
  | Ok JNull | Ok JUndefined =>
      throw "TypeError: Cannot read properties of null (reading 'id')"
  | Ok parsedTask =>
      let task := Js.props parsedTask in
      let taskId := taskId_of parsedTask fileName in
      let prompt := prompt_of parsedTask in
      if String.eqb (Str.trim prompt) "" then failMissingPrompt context fileName loopStamp taskId
      else
        match pickAgent task (agents context) (config context) with
        | None =>
            let* _ := moveFileToDir (processing (dirs context)) fileName (inbox (dirs context))
                        ("waiting-" +:+ pretty loopStamp) in
            ret true
        | Some agent =>
            let* stamp := tsCompact in
            let runDir := path_join (runs (dirs context)) (stamp +:+ "-" +:+ Slug.slugify taskId) in
            let* _ := ensureDir runDir in
            let* _ := writeFileSync runDir "task.json" (JSON_stringify E parsedTask +:+ newline) in
            let* _ := writeFileSync runDir "prompt.txt" (prompt +:+ newline) in
            let* startedAt := Date_now in
            let* created := trying (if useWorktree agent
                                    then let* wt := createWorktree (repoRoot context)
                                                      (worktrees (dirs context)) (name agent) taskId in
                                         ret (Some wt)
                                    else ret None) in
            match created with
            | Throw error => onRuntimeException context fileName taskId agent runDir None error
            | Ok worktree =>
                let* done := trying (execute context fileName task taskId prompt agent runDir
                                       startedAt worktree) in
                match done with
                | Throw error =>
                    onRuntimeException context fileName taskId agent runDir worktree error
                | Ok processed => ret processed
                end
            end
        end
  end.

(** Lines 347-502: claim [fileName] by renaming it, then process it. *)
Definition processFile (context : Context) (fileName : string) : M bool :=
  let* claim := trying (renameSync (inbox (dirs context)) fileName
                          (processing (dirs context)) fileName) in
  match claim with
  | Throw _ => ret true
  | Ok _ => processClaimed context fileName
  end.

Definition processOneTask (context : Context) : M bool :=
  let* taskFiles := listFiles (inbox (dirs context)) ".json" in
  match taskFiles with
  | [] => ret false
  | fileName :: _ =>
      match agents context with
      | [] =>
          let* _ := log "Tasks pending, but no available agent tools detected." "" in
          ret true
      | _ => processFile context fileName
      end
  end.

End Daemon.

(** ** The command line *)

(** A number whose fraction and whose infinities matter: the poll
    interval that [Number(value)] reads from the command line. *)
Inductive number : Type :=
| NaN
| Infinity (negative : bool)
| Finite (q : Q).

Module Num.

(** ToBoolean: [NaN], [0] and [-0] are falsy. *)
Definition truthy (n : number) : bool :=
  match n with
  | NaN => false
  | Infinity _ => true
  | Finite q => negb (Qeq_bool q 0)
  end.

(** [Number.isFinite(n)]. *)
Definition isFinite (n : number) : bool :=
  match n with
  | Finite _ => true
  | _ => false
  end.

(** [n < bound]. *)
Definition lt (n : number) (bound : Q) : bool :=
  match n with
  | NaN => false
  | Infinity negative => negative
  | Finite q => negb (Qle_bool bound q)
  end.

End Num.

Record Options : Type := mkOptions {
  home : string;
  pollMs : number;
  once : bool;
}.

(** How [parseArgs] ends: it returns, it throws, or it prints the usage
    and calls [process.exit(0)]. *)
Inductive cli (A : Type) : Type :=
| Parsed (a : A)
| Rejected (error : string)
| Helped.
Arguments Parsed {A} a.
Arguments Rejected {A} error.
Arguments Helped {A}.

(** Lines 41-65: the loop over [argv], from the argument at hand. *)
Fixpoint eachArg (Number_ : string -> number) (argv : list string) (options : Options)
    : cli Options :=
  match argv with
  | [] => Parsed options
  | key :: rest =>
      if String.eqb key "--help" || String.eqb key "-h" then Helped
      else if String.eqb key "--once"
      then eachArg Number_ rest (mkOptions (home options) (pollMs options) true)
      else if String.eqb key "--home" || String.eqb key "--poll-ms"
      then
        match rest with
        | value :: rest' =>
            if String.eqb value "" || String.prefix "--" value
            then Rejected ("Error: Missing value for " +:+ key)
            else if String.eqb key "--home"
            then eachArg Number_ rest' (mkOptions value (pollMs options) (once options))
            else eachArg Number_ rest' (mkOptions (home options) (Number_ value) (once options))
        | [] => Rejected ("Error: Missing value for " +:+ key)
        end
      else Rejected ("Error: Unknown argument: " +:+ key)
  end.

(** [parseArgs(argv)]; [Number_] is [Number] on a string. *)
Definition parseArgs (Number_ : string -> number) (argv : list string) : cli Options :=
  match eachArg Number_ argv (mkOptions "" (Finite 0) false) with
  | Parsed options =>
      if Num.truthy (pollMs options) &&
         (negb (Num.isFinite (pollMs options)) || Num.lt (pollMs options) 100)
      then Rejected "Error: --poll-ms must be a number >= 100"
      else Parsed options
  | ended => ended
  end.

(** ** The configuration and the startup *)

Definition DEFAULT_CONFIG : obj :=
  [("pollIntervalMs", JNum 5000);
   ("defaultMaxAttempts", JNum 2);
   ("routingOrder", JArr []);
   ("cleanupWorktreeOnSuccess", JBool false);
   ("cleanupWorktreeOnFailure", JBool false)].

Fixpoint characters (s : string) : list string :=
  match s with
  | EmptyString => []
  | String c rest => String c "" :: characters rest
  end.

(** The own enumerable properties that a spread [...v] copies: those of
    an object, the elements of an array and the characters of a string
    under their indices, none for the other values. *)
Definition ownProperties (v : jsval) : obj :=
  match v with
  | JObj fields => fields
  | JArr items => imap (fun i x => (pretty i, x)) items
  | JStr s => imap (fun i c => (pretty i, JStr c)) (characters s)
  | _ => []
  end.

(** [{ ...target, ...source }], read by key. *)
Definition spread (target : obj) (source : jsval) : obj :=
  fold_left (fun o kv => Js.set o kv.1 kv.2) (ownProperties source) target.

Section Startup.

Variable E : platform.

(** [process.env]. *)
Variable env : gmap string string.

(** [loadConfig(configPath)], the path given as a directory and a name. *)
Definition loadConfig (dir fileName : string) : M obj := fun w =>
  match Fs.file (fs w) dir fileName with
  | None => (Ok DEFAULT_CONFIG, w)
  | Some _ =>
      (let* parsed := trying (readJson E dir fileName) in
       match parsed with
       | Ok value => ret (spread DEFAULT_CONFIG value)
       | Throw error =>
           let* _ := log E ("Invalid config file at " +:+ path_join dir fileName
                            +:+ "; using defaults.") error in
           ret DEFAULT_CONFIG
       end) w
  end.

(** Lines 510-527 of [main]: the directories of the home are made, then
    the tasks that a crash left in [processing] are recovered. *)
Definition prepareHome (homeDir : string) : M unit :=
  let dirs := homeDirs homeDir in
  let* _ := ensureDir E homeDir in
  let* _ := ensureDir E (inbox dirs) in
  let* _ := ensureDir E (processing dirs) in
  let* _ := ensureDir E (completed dirs) in
  let* _ := ensureDir E (failed dirs) in
  let* _ := ensureDir E (runs dirs) in
  let* _ := ensureDir E (worktrees dirs) in
  let* _ := ensureDir E (path_join homeDir "agents") in
  recoverProcessing E (processing dirs) (inbox dirs).

(** Lines 545-556 of [main]: one turn of the loop; what it returns is
    [processed]. The sleep that follows a turn that processed nothing is
    left out. *)
Definition iteration (homeDir repoRoot globalAgentsDir : string) : M bool :=
  let* config := loadConfig homeDir "orchestrator.config.json" in
  let agentSources :=
    if bool_decide (env !! "AUTO_DELEGATE_DISABLE_GLOBAL_AGENTS" = Some "1")
    then [path_join homeDir "agents"]
    else [globalAgentsDir; path_join homeDir "agents"] in
  let* agents := loadAgents E agentSources in
  processOneTask E
    (mkContext config (homeDirs homeDir) agents repoRoot (path_join homeDir "daemon.log")).

End Startup.

(** * The vocabulary of the properties *)

(** ** The router *)

(** What [loadAgents] requires of a definition before it enters the
    registry: a truthy [name] and a truthy [command]. *)
Definition registry_valid (a : Agent) : Prop :=
  Js.truthy (name a) = true /\ Js.truthy (command a) = true.

(** The routing order of a configuration: the elements of
    [config.routingOrder], none when it is not an array. *)
Definition routingOrder (config : obj) : list jsval :=
  match Js.get config "routingOrder" with
  | JArr order => order
  | _ => []
  end.

(** The selection rule in the words of the specification: the first of
    the four rules that matches decides. *)
Definition select (task : obj) (agents : list Agent) (config : obj) : option Agent :=
  match find (fun a => Js.strict_eq (name a) (Js.get task "agent")) agents with
  | Some a => Some a
  | None =>
      match find (fun a => Js.strict_eq (command a) (Js.get task "tool")) agents with
      | Some a => Some a
      | None =>
          match find (fun n => existsb (fun a => Js.strict_eq (name a) n) agents)
                  (routingOrder config) with
          | Some n => find (fun a => Js.strict_eq (name a) n) agents
          | None => head agents
          end
      end
  end.

(** ** The file system and the queue *)

(** The directory [dir] exists. *)
Definition has_dir (x : gmap string (gmap string string)) (dir : string) : Prop :=
  is_Some (x !! dir).

(** The world after [moveFileToDir] has moved a file. *)
Definition moved (w : world) (sourceDir baseName targetDir prefix content : string) : world :=
  set_fs (next_write (next_write w))
    (Fs.put (Fs.remove (Fs.mkdir (fs w) targetDir) sourceDir baseName)
       targetDir (prefix +:+ "-" +:+ baseName) content).

(** [fileName], with content [text], is the task that [processOneTask]
    claims next: it comes first in the sorted listing of the inbox, the
    processing directory exists, and some agent is available. *)
Definition pending (E : platform) (context : Context) (w : world)
    (fileName text : string) : Prop :=
  (exists rest, listFiles E (inbox (dirs context)) ".json" w = (Ok (fileName :: rest), w)) /\
  Fs.file (fs w) (inbox (dirs context)) fileName = Some text /\
  has_dir (fs w) (processing (dirs context)) /\
  agents context <> [].

(** The world once the claim has renamed the file into [processing]. *)
Definition claimed (context : Context) (w : world) (fileName text : string) : world :=
  set_fs (next_write w)
    (Fs.put (Fs.remove (fs w) (inbox (dirs context)) fileName)
       (processing (dirs context)) fileName text).

(** The task [fileName] has gone from [w] to the failed directory in [w']:
    its file, with the content [text] it had, is in [failed] under a time
    stamp, it is neither in [processing] nor back in the inbox (whose other
    files are as they were), and one [failed] event with [reason] has been
    appended to the log. *)
Definition failed_as (context : Context) (w w' : world) (fileName text reason : string) : Prop :=
  (exists stamp : Z,
      Fs.file (fs w') (failed (dirs context)) (pretty stamp +:+ "-" +:+ fileName) = Some text) /\
  Fs.file (fs w') (processing (dirs context)) fileName = None /\
  (forall other,
      Fs.file (fs w') (inbox (dirs context)) other
      = if decide (other = fileName) then None else Fs.file (fs w) (inbox (dirs context)) other) /\
  exists payload,
    events w' = events w ++ [(logPath context, payload)] /\
    Js.get (Js.props payload) "status" = JStr "failed" /\
    Js.get (Js.props payload) "reason" = JStr reason.


(** How [main] ends when [processOneTask] has returned or thrown in an
    iteration (lines 550-573): a thrown error rejects the promise of
    [main], whose [catch] prints it and calls [process.exit(1)]; [None]
    means that the daemon goes on. *)
Definition daemon_exit (iteration : outcome bool * world) : option Z :=
  match iteration.1 with
  | Ok _ => None
  | Throw _ => Some 1
  end.

(** ** One execution *)




(** The working directory of the agent, when it resolves. *)
Definition runCwd (E : platform) (context : Context) (task : obj)
    (worktreePath : option string) : string :=
  match resolveRunCwd E (repoRoot context) worktreePath (Js.get task "cwd") with
  | Ok p => p
  | Throw _ => ""
  end.

(** The child processes of one iteration: the worktree, when the agent
    uses one, is created, the agent returns [result], and the removal of
    the worktree, when the configuration asks for it, returns. *)
Definition execution (E : platform) (context : Context) (agent : Agent) (w : world)
    (result : SpawnResult) : Prop :=
  let n := length (spawned w) in
  match useWorktree agent return Prop with
  | true =>
      (exists g, child E n = Ok g /\ status g = Some 0) /\
      child E (S n) = Ok result /\
      (Js.truthy (Js.get (config context) "cleanupWorktreeOnFailure") = true ->
       exists c, child E (S (S n)) = Ok c)
  | false => child E n = Ok result
  end.


(** The task that a retry writes back (lines 450-452). *)
Definition requeuedTask (E : platform) (task : obj) (result : SpawnResult) (tried : string)
    : obj :=
  Js.set
    (Js.set
       (Js.set task "attempt" (js_num (plus_one (attempt_of E task))))
       "lastError"
       (JStr (Str.slice0 5000
                (if String.eqb (stderr result) "" then exit_reason result else stderr result))))
    "lastTriedAt" (JStr tried).

(** ** The registry *)

(** The definition that a file contributes to the registry, if any: the
    file parses to an object that is not disabled, has a truthy [name] and
    [command], and whose command is installed. *)
Definition agentOf (E : platform) (x : gmap string (gmap string string))
    (agentsDir fileName : string) : option Agent :=
  match Fs.file x agentsDir fileName with
  | None => None
  | Some text =>
      match JSON_parse E text with
      | Ok (JObj agent) =>
          if Js.strict_eq (Js.get agent "enabled") (JBool false) then None
          else if negb (Js.truthy (Js.get agent "name")) || negb (Js.truthy (Js.get agent "command"))
          then None
          else match which E (Js.to_string (Js.get agent "command")) with
               | Ok true => Some (normalise agent)
               | _ => None
               end
      | _ => None
      end
  end.

(** The names of a directory as [listFiles] returns them. *)
Definition listed (E : platform) (x : gmap string (gmap string string))
    (dirPath suffix : string) : list string :=
  match x !! dirPath with
  | None => []
  | Some d =>
      sort_by (localeCompare E)
        (List.filter (fun name => Str.ends_with name suffix) (map_to_list d).*1)
  end.

(** The definitions of a directory, in the order in which they are read. *)
Definition dirDefinitions (E : platform) (x : gmap string (gmap string string))
    (agentsDir : string) : list Agent :=
  if String.eqb agentsDir "" || negb (bool_decide (is_Some (x !! agentsDir))) then []
  else omap (agentOf E x agentsDir) (listed E x agentsDir ".agent.json").

(** The [Map] after the definitions [defs] have been set, in order. *)
Definition merge (byName : list (jsval * Agent)) (defs : list Agent) : list (jsval * Agent) :=
  fold_left (fun m a => map_set m (name a) a) defs byName.

(** No two entries of the [Map] have the same key. *)
Fixpoint distinct_keys (m : list (jsval * Agent)) : Prop :=
  match m with
  | [] => True
  | (k, _) :: rest =>
      (forall k' b, (k', b) ∈ rest -> Js.strict_eq k k' = false) /\ distinct_keys rest
  end.

(** Every key of the [Map] is the name of its agent. *)
Definition named (m : list (jsval * Agent)) : Prop :=
  forall k b, (k, b) ∈ m -> k = name b.

(** The file [fileName] of [agentsDir] holds a definition that
    [loadAgents] admits: it parses to the object [agent], which is not
    disabled, has a truthy [name] and [command], and whose command is
    installed. *)
Definition eligible (E : platform) (x : gmap string (gmap string string))
    (agentsDir fileName : string) (agent : obj) : Prop :=
  Str.ends_with fileName ".agent.json" = true /\
  (exists text, Fs.file x agentsDir fileName = Some text /\ JSON_parse E text = Ok (JObj agent)) /\
  Js.strict_eq (Js.get agent "enabled") (JBool false) = false /\
  Js.truthy (Js.get agent "name") = true /\
  Js.truthy (Js.get agent "command") = true /\
  which E (Js.to_string (Js.get agent "command")) = Ok true.

(** ** Names *)

(** Every character of [s] satisfies [p]. *)
Fixpoint every_char (p : ascii -> bool) (s : string) : bool :=
  match s with
  | EmptyString => true
  | String c rest => p c && every_char p rest
  end.


Definition is_digit (c : ascii) : bool := ((48 <=? Str.code c) && (Str.code c <=? 57))%N.

Definition not_slash (c : ascii) : bool := negb (Ascii.eqb c "/").

(** ** Listings *)

(** [a] comes no later than [b] under the comparison [cmp]. *)
Definition no_later (cmp : string -> string -> Z) (a b : string) : Prop := cmp a b <= 0.

(** [cmp] is a consistent comparison function: total and transitive. *)
Definition consistent (cmp : string -> string -> Z) : Prop :=
  (forall a b, no_later cmp a b \/ no_later cmp b a) /\
  (forall a b c, no_later cmp a b -> no_later cmp b c -> no_later cmp a c).

(** ** Effects of a computation *)

(** [w'] differs from [w] by what was printed and by the readings of the
    clock only: no file, no event and no process has been added. *)
Definition quiet (w w' : world) : Prop :=
  fs w' = fs w /\ events w' = events w /\ spawned w' = spawned w /\ writes w' = writes w.




(** ** The processes of one execution *)



(** The flag of the configuration that asks for the removal of the
    worktree after [result]. *)
Definition cleanupFlag (result : SpawnResult) : string :=
  match status result with
  | Some 0 => "cleanupWorktreeOnSuccess"
  | _ => "cleanupWorktreeOnFailure"
  end.

(** The worktree, when the agent uses one, is made. *)
Definition worktree_made (E : platform) (agent : Agent) (w : world) : Prop :=
  useWorktree agent = true ->
  exists g, child E (length (spawned w)) = Ok g /\ status g = Some 0.

(** The number of processes that the creation of the worktree starts. *)
Definition worktreeCalls (agent : Agent) : nat := if useWorktree agent then 1%nat else 0%nat.

(** The child processes of one iteration, whatever the result: the
    worktree, when the agent uses one, is made, the agent returns
    [result], and the removal of the worktree, when the configuration asks
    for it after this result, returns. *)
Definition agent_returns (E : platform) (context : Context) (agent : Agent) (w : world)
    (result : SpawnResult) : Prop :=
  let n := length (spawned w) in
  worktree_made E agent w /\
  child E (n + worktreeCalls agent) = Ok result /\
  (useWorktree agent = true ->
   Js.truthy (Js.get (config context) (cleanupFlag result)) = true ->
   exists c, child E (S (S n)) = Ok c).



(** ** The files of the queue *)

(** A name that the task file [fileName] may bear after the moves of the
    queue: its own, or its own after a prefix and a dash. *)
Definition names_task (fileName name : string) : Prop :=
  name = fileName \/ exists prefix, name = prefix +:+ "-" +:+ fileName.

(** The directories between which the task files move. *)
Definition queueDirs (context : Context) : list string :=
  [inbox (dirs context); processing (dirs context);
   failed (dirs context); completed (dirs context)].

(** The task file [fileName] is somewhere in the queue. *)
Definition in_queue (context : Context) (fileName : string) (w : world) : Prop :=
  exists dir name,
    dir ∈ queueDirs context /\ names_task fileName name /\
    is_Some (Fs.file (fs w) dir name).

(** The file [fileName] of [dir] is in its place, or in the queue. *)
Definition kept_file (context : Context) (dir fileName : string) (w : world) : Prop :=
  is_Some (Fs.file (fs w) dir fileName) \/ in_queue context fileName w.


(** [m] does not return [false]. *)
Definition ends_true (m : M bool) : Prop :=
  forall w w' b, m w = (Ok b, w') -> b = true.

(** ** A concrete host, for the examples

    A platform small enough to run inside Rocq: documents are parsed by
    looking them up among the serialisations of a given list of values,
    the clock advances by one millisecond per reading, and the child
    processes, the installed commands and the I/O failures are given per
    example. *)

Module Demo.

Definition quote : string := String "034" "".

Fixpoint stringify (v : jsval) : string :=
  match v with
  | JUndefined | JNull => "null"
  | JBool true => "true"
  | JBool false => "false"
  | JNum n => pretty n
  | JStr s => quote +:+ s +:+ quote
  | JArr items =>
      "[" +:+ Js.join ","
        ((fix each (l : list jsval) : list string :=
            match l with
            | [] => []
            | x :: l' => stringify x :: each l'
            end) items) +:+ "]"
  | JObj fields =>
      "{" +:+ Js.join ","
        ((fix each (l : list (string * jsval)) : list string :=
            match l with
            | [] => []
            | (k, x) :: l' => (quote +:+ k +:+ quote +:+ ":" +:+ stringify x) :: each l'
            end) fields) +:+ "}"
  end.

Definition parse (documents : list jsval) (text : string) : outcome jsval :=
  match find (fun v => String.eqb (stringify v) text) documents with
  | Some v => Ok v
  | None => Throw "SyntaxError: Unexpected token in JSON"
  end.

Definition compare (a b : string) : Z :=
  match String.compare a b with
  | Lt => -1
  | Eq => 0
  | Gt => 1
  end.

Definition host (documents : list jsval)
    (installed : list string)
    (child : nat -> outcome SpawnResult)
    (io_error : nat -> option string) : platform :=
  mkPlatform (parse documents) stringify (fun _ => None) compare
    (fun t => "T" +:+ pretty t +:+ "Z") path_join None
    (fun n => 1700000000000 + Z.of_nat n)
    (fun c => Ok (bool_decide (c ∈ installed))) child io_error.

Definition dirs : Dirs := homeDirs "/home".

(** A home whose queue directories exist, with [files] in the inbox. *)
Definition home (files : list (string * string)) : world :=
  mkWorld
    (<[inbox dirs := list_to_map files]>
       (<[processing dirs := ∅]>
          (<[completed dirs := ∅]>
             (<[failed dirs := ∅]>
                (<[runs dirs := ∅]> (<[worktrees dirs := ∅]> ∅))))))
    [] [] [] 0 0.

Definition claude : Agent :=
  mkAgent [("name", JStr "claude"); ("command", JStr "claude")] argument ["-p"] false.

Definition exits (code : Z) (err : string) : nat -> outcome SpawnResult :=
  fun _ => Ok (mkResult (Some code) None "" err).

Definition reliable : nat -> option string := fun _ => None.

Definition context (config : obj) (agents : list Agent) : Context :=
  mkContext config dirs agents "/repo" "/home/daemon.log".

(** An agent that runs in a worktree of its own. *)
Definition codex : Agent :=
  mkAgent [("name", JStr "codex"); ("command", JStr "codex")] stdin [] true.


(** The n-th mutation of the file system fails with [error]. *)
Definition failing_at (n : nat) (error : string) : nat -> option string :=
  fun k => if (k =? n)%nat then Some error else None.

(** Task files. *)
Definition task_twice : jsval :=
  JObj [("id", JStr "t1"); ("prompt", JStr "do it"); ("maxAttempts", JNum 2)].




(** Agent definitions: the shared one, a local one that disables it, and
    a local one that changes its arguments. *)
Definition shared_claude : obj :=
  [("name", JStr "claude"); ("command", JStr "claude"); ("defaultArgs", JArr [JStr "-p"])].

Definition disabled_claude : obj :=
  [("name", JStr "claude"); ("command", JStr "claude"); ("enabled", JBool false)].

Definition local_claude : obj :=
  [("name", JStr "claude"); ("command", JStr "claude");
   ("defaultArgs", JArr [JStr "--model"; JStr "opus"])].

(** A world with a shared and a local directory of agent definitions,
    each holding one file [claude.agent.json]. *)
Definition registry_world (shared local : obj) : world :=
  mkWorld
    (<["/shared" := {["claude.agent.json" := stringify (JObj shared)]}]>
       (<["/home/agents" := {["claude.agent.json" := stringify (JObj local)]}]> ∅))
    [] [] [] 0 0.

Definition registry_host : platform :=
  host [JObj shared_claude; JObj disabled_claude; JObj local_claude] ["claude"]
    (exits 0 "") reliable.

(** A world in which a crash has left [t.json] in [processing]. *)
Definition crashed : world :=
  mkWorld
    (<[inbox dirs := ∅]> (<[processing dirs := {["t.json" := stringify task_twice]}]> ∅))
    [] [] [] 0 0.



(** A task that sets neither [maxAttempts] nor [attempt]. *)
Definition task_plain : jsval :=
  JObj [("id", JStr "t6"); ("prompt", JStr "do it")].

(** A shared directory that defines two agents. *)
Definition shared_codex : obj := [("name", JStr "codex"); ("command", JStr "codex")].

Definition two_agents : world :=
  mkWorld
    (<["/shared" := <["claude.agent.json" := stringify (JObj shared_claude)]>
                      {["codex.agent.json" := stringify (JObj shared_codex)]}]> ∅)
    [] [] [] 0 0.

Definition two_agents_host : platform :=
  host [JObj shared_claude; JObj shared_codex] ["claude"; "codex"] (exits 0 "") reliable.

(** A home with a configuration file that allows five attempts. *)
Definition five_attempts : obj := [("defaultMaxAttempts", JNum 5)].

Definition configured : world :=
  mkWorld (<["/home" := {["orchestrator.config.json" := stringify (JObj five_attempts)]}]> ∅)
    [] [] [] 0 0.

(** [Number] on the values of the command line used in the examples. *)
Definition number_of (value : string) : number :=
  if String.eqb value "250" then Finite 250 else NaN.

End Demo.

(** * Properties *)

(** Projections of a world that was built by the setters. *)
Ltac world_simpl :=
  cbn [fs events console spawned ticks writes
       set_fs add_event add_console add_spawned next_tick next_write] in *.

(** ** The router *)

Lemma strict_eq_truthy (a b : jsval) :
  Js.strict_eq a b = true -> Js.truthy a = Js.truthy b.
Proof.
  destruct a, b; simpl; try discriminate; try reflexivity.
  - intros H. apply Bool.eqb_prop in H. by subst.
  - intros H. apply Z.eqb_eq in H. by subst.
  - intros H. apply String.eqb_eq in H. by subst.
Qed.

Lemma find_falsy_none (proj : Agent -> jsval) (v : jsval) (agents : list Agent) :
  Js.truthy v = false ->
  Forall (fun a => Js.truthy (proj a) = true) agents ->
  find (fun a => Js.strict_eq (proj a) v) agents = None.
Proof.
  intros Hv Hall. induction Hall as [|a l Ha _ IH]; simpl; [done|].
  destruct (Js.strict_eq (proj a) v) eqn:Heq; [|exact IH].
  apply strict_eq_truthy in Heq. congruence.
Qed.

Lemma find_existsb_none {A} (p : A -> bool) (l : list A) :
  find p l = None -> existsb p l = false.
Proof.
  induction l as [|x l IH]; simpl; [done|].
  destruct (p x); [discriminate|exact IH].
Qed.

Lemma find_existsb_some {A} (p : A -> bool) (l : list A) (x : A) :
  find p l = Some x -> existsb p l = true.
Proof.
  induction l as [|y l IH]; simpl; [discriminate|].
  destruct (p y); [done|exact IH].
Qed.

Lemma firstRouted_find (order : list jsval) (agents : list Agent) :
  firstRouted order agents =
  match find (fun n => existsb (fun a => Js.strict_eq (name a) n) agents) order with
  | Some n => find (fun a => Js.strict_eq (name a) n) agents
  | None => None
  end.
Proof.
  induction order as [|n rest IH]; simpl; [done|].
  destruct (find (fun agent => Js.strict_eq (name agent) n) agents) as [found|] eqn:Hf.
  - by rewrite (find_existsb_some _ _ _ Hf), Hf.
  - by rewrite (find_existsb_none _ _ Hf).
Qed.

Lemma pickAgent_null_iff (task : obj) (agents : list Agent) (config : obj) :
  pickAgent task agents config = None <-> agents = [].
Proof.
  unfold pickAgent. destruct agents as [|first rest]; [done|].
  split; [|discriminate].
  repeat match goal with
         | |- context [match ?x with _ => _ end] => destruct x; try discriminate
         end.
Qed.

(** The guards of the code, and nothing else, for any list of agents. *)
Lemma pickAgent_guarded (task : obj) (agents : list Agent) (config : obj) :
  pickAgent task agents config =
  match (if Js.truthy (Js.get task "agent")
         then find (fun a => Js.strict_eq (name a) (Js.get task "agent")) agents
         else None) with
  | Some a => Some a
  | None =>
      match (if Js.truthy (Js.get task "tool")
             then find (fun a => Js.strict_eq (command a) (Js.get task "tool")) agents
             else None) with
      | Some a => Some a
      | None =>
          match firstRouted (routingOrder config) agents with
          | Some a => Some a
          | None => head agents
          end
      end
  end.
Proof.
  unfold pickAgent, routingOrder. destruct agents as [|first rest].
  - simpl. destruct (Js.truthy _); destruct (Js.truthy _);
      destruct (Js.get config "routingOrder") as [| | | | |order|]; try reflexivity;
      induction order as [|n order IH]; simpl; done.
  - destruct (Js.get config "routingOrder"); reflexivity.
Qed.

(** C2. [pickAgent] returns [null] exactly when there is no agent; on a
    registry (every agent has a truthy [name] and [command], which is what
    [loadAgents] admits) it returns the agent chosen by the first matching
    rule: the agent named [task.agent], the agent whose command is
    [task.tool], the agent named by the first matching entry of
    [config.routingOrder], the first agent of the list. *)
Theorem pickAgent_priority (task : obj) (agents : list Agent) (config : obj) :
  Forall registry_valid agents ->
  (pickAgent task agents config = None <-> agents = []) /\
  pickAgent task agents config = select task agents config.
Proof.
  intros Hvalid. split; [apply pickAgent_null_iff|].
  assert (Hn : Forall (fun a => Js.truthy (name a) = true) agents)
    by (eapply Forall_impl; [exact Hvalid|by intros a [? ?]]).
  assert (Hc : Forall (fun a => Js.truthy (command a) = true) agents)
    by (eapply Forall_impl; [exact Hvalid|by intros a [? ?]]).
  rewrite pickAgent_guarded. unfold select.
  assert (H1 : (if Js.truthy (Js.get task "agent")
                then find (fun a => Js.strict_eq (name a) (Js.get task "agent")) agents
                else None)
               = find (fun a => Js.strict_eq (name a) (Js.get task "agent")) agents).
  { destruct (Js.truthy (Js.get task "agent")) eqn:Ht; [done|].
    symmetry. by apply find_falsy_none. }
  assert (H2 : (if Js.truthy (Js.get task "tool")
                then find (fun a => Js.strict_eq (command a) (Js.get task "tool")) agents
                else None)
               = find (fun a => Js.strict_eq (command a) (Js.get task "tool")) agents).
  { destruct (Js.truthy (Js.get task "tool")) eqn:Ht; [done|].
    symmetry. by apply (find_falsy_none command). }
  rewrite H1, H2, firstRouted_find.
  destruct (find _ agents) as [a|]; [done|].
  destruct (find _ agents) as [a|]; [done|].
  destruct (find _ (routingOrder config)) as [n|] eqn:Hn'; [|done].
  apply find_some in Hn' as [_ Hex].
  destruct (find (fun a => Js.strict_eq (name a) n) agents) eqn:Hf; [done|].
  apply find_existsb_none in Hf. congruence.
Qed.

(** ** The file system: lookups after an update *)

Section FsFacts.

Implicit Types (x : gmap string (gmap string string)) (dir fileName content : string).

Lemma has_dir_put x dir fileName content dir' :
  has_dir (Fs.put x dir fileName content) dir' <-> has_dir x dir'.
Proof.
  unfold has_dir, Fs.put. destruct (x !! dir) as [d|] eqn:Hd; [|done].
  destruct (decide (dir = dir')) as [->|Hne].
  - rewrite lookup_insert_eq, Hd. split; eauto.
  - by rewrite lookup_insert_ne.
Qed.

Lemma has_dir_remove x dir fileName dir' :
  has_dir (Fs.remove x dir fileName) dir' <-> has_dir x dir'.
Proof.
  unfold has_dir, Fs.remove. destruct (x !! dir) as [d|] eqn:Hd; [|done].
  destruct (decide (dir = dir')) as [->|Hne].
  - rewrite lookup_insert_eq, Hd. split; eauto.
  - by rewrite lookup_insert_ne.
Qed.

Lemma has_dir_mkdir x dir dir' :
  has_dir (Fs.mkdir x dir) dir' <-> dir = dir' \/ has_dir x dir'.
Proof.
  unfold has_dir, Fs.mkdir. destruct (x !! dir) as [d|] eqn:Hd.
  - split; [by right|]. intros [<-|H]; [rewrite Hd; eauto|done].
  - destruct (decide (dir = dir')) as [->|Hne].
    + rewrite lookup_insert_eq. split; eauto.
    + rewrite lookup_insert_ne by done. split; [by right|]. by intros [?|?].
Qed.

Lemma file_put_eq x dir fileName content :
  has_dir x dir -> Fs.file (Fs.put x dir fileName content) dir fileName = Some content.
Proof.
  intros [d Hd]. unfold Fs.file, Fs.put. rewrite Hd, lookup_insert_eq.
  apply lookup_insert_eq.
Qed.

Lemma file_put_ne x dir fileName content dir' fileName' :
  dir <> dir' \/ fileName <> fileName' ->
  Fs.file (Fs.put x dir fileName content) dir' fileName' = Fs.file x dir' fileName'.
Proof.
  intros Hne. unfold Fs.file, Fs.put. destruct (x !! dir) as [d|] eqn:Hd; [|done].
  destruct (decide (dir = dir')) as [->|Hd'].
  - rewrite lookup_insert_eq, Hd. destruct Hne as [?|?]; [done|].
    by rewrite lookup_insert_ne.
  - by rewrite lookup_insert_ne.
Qed.

Lemma file_remove_eq x dir fileName :
  Fs.file (Fs.remove x dir fileName) dir fileName = None.
Proof.
  unfold Fs.file, Fs.remove. destruct (x !! dir) as [d|] eqn:Hd.
  - rewrite lookup_insert_eq. apply lookup_delete_eq.
  - by rewrite Hd.
Qed.

Lemma file_remove_ne x dir fileName dir' fileName' :
  dir <> dir' \/ fileName <> fileName' ->
  Fs.file (Fs.remove x dir fileName) dir' fileName' = Fs.file x dir' fileName'.
Proof.
  intros Hne. unfold Fs.file, Fs.remove. destruct (x !! dir) as [d|] eqn:Hd; [|done].
  destruct (decide (dir = dir')) as [->|Hd'].
  - rewrite lookup_insert_eq, Hd. destruct Hne as [?|?]; [done|].
    by rewrite lookup_delete_ne.
  - by rewrite lookup_insert_ne.
Qed.

Lemma file_mkdir x dir dir' fileName' :
  Fs.file (Fs.mkdir x dir) dir' fileName' = Fs.file x dir' fileName'.
Proof.
  unfold Fs.file, Fs.mkdir. destruct (x !! dir) as [d|] eqn:Hd; [done|].
  destruct (decide (dir = dir')) as [->|Hd'].
  - by rewrite lookup_insert_eq, Hd, lookup_empty.
  - by rewrite lookup_insert_ne.
Qed.


Lemma rename_ok x dir fileName dir' fileName' content :
  Fs.file x dir fileName = Some content -> has_dir x dir' ->
  Fs.rename x dir fileName dir' fileName'
  = Ok (Fs.put (Fs.remove x dir fileName) dir' fileName' content).
Proof. intros Hf [d Hd]. unfold Fs.rename. by rewrite Hf, Hd. Qed.

Lemma rename_missing x dir fileName dir' fileName' :
  Fs.file x dir fileName = None ->
  exists error, Fs.rename x dir fileName dir' fileName' = Throw error.
Proof. intros Hf. unfold Fs.rename. rewrite Hf. eauto. Qed.


End FsFacts.

(** ** Paths of a home *)

Lemma path_join_inj (homeDir a b : string) :
  path_join homeDir a = path_join homeDir b -> a = b.
Proof.
  unfold path_join. intros H. apply (inj (String.app homeDir)) in H.
  by apply (inj (String.app "/")) in H.
Qed.

Lemma string_app_cons (x : ascii) (a b : string) :
  String x a +:+ b = String x (a +:+ b).
Proof. reflexivity. Qed.

Lemma string_app_assoc (a b c : string) : (a +:+ b) +:+ c = a +:+ (b +:+ c).
Proof. induction a as [|x a IH]; [done|]. by rewrite !string_app_cons, IH. Qed.

Lemma string_app_length (a b : string) :
  String.length (a +:+ b) = (String.length a + String.length b)%nat.
Proof. induction a as [|x a IH]; [done|]. rewrite string_app_cons. simpl. by rewrite IH. Qed.

Lemma path_join_assoc (homeDir a b : string) :
  path_join (path_join homeDir a) b = path_join homeDir (a +:+ "/" +:+ b).
Proof. unfold path_join. by rewrite !string_app_assoc. Qed.

(** ** Blank prompts *)





(** ** Running effects *)

Lemma bind_ok {A B} (m : M A) (k : A -> M B) (w w' : world) (a : A) :
  m w = (Ok a, w') -> bind m k w = k a w'.
Proof. intros H. unfold bind. by rewrite H. Qed.


Lemma trying_run {A} (m : M A) (w w' : world) (r : outcome A) :
  m w = (r, w') -> trying m w = (Ok r, w').
Proof. intros H. unfold trying. by rewrite H. Qed.

Section Runs.

Variable E : platform.
Hypothesis reliable : forall n, io_error E n = None.

Lemma Date_now_run (w : world) :
  Date_now E w = (Ok (clock E (ticks w)), next_tick w).
Proof. reflexivity. Qed.

Lemma nowIso_run (w : world) :
  nowIso E w = (Ok (toISOString E (clock E (ticks w))), next_tick w).
Proof. reflexivity. Qed.


Lemma mutate_run op (w : world) x :
  op (fs w) = Ok x -> mutate E op w = (Ok tt, set_fs (next_write w) x).
Proof. intros H. unfold mutate. by rewrite reliable, H. Qed.

Lemma ensureDir_run (dirPath : string) (w : world) :
  ensureDir E dirPath w = (Ok tt, set_fs (next_write w) (Fs.mkdir (fs w) dirPath)).
Proof. by apply mutate_run. Qed.


Lemma renameSync_run (dir fileName dir' fileName' content : string) (w : world) :
  Fs.file (fs w) dir fileName = Some content -> has_dir (fs w) dir' ->
  renameSync E dir fileName dir' fileName' w
  = (Ok tt, set_fs (next_write w)
              (Fs.put (Fs.remove (fs w) dir fileName) dir' fileName' content)).
Proof. intros Hf Hd. apply mutate_run. by apply rename_ok. Qed.

Lemma appendEvent_run (logPath : string) (payload : jsval) (w : world) :
  appendEvent E logPath payload w = (Ok tt, add_event (next_write w) logPath payload).
Proof. unfold appendEvent. by rewrite reliable. Qed.

Lemma moveFileToDir_run (sourceDir baseName targetDir prefix content : string) (w : world) :
  Fs.file (fs w) sourceDir baseName = Some content ->
  moveFileToDir E sourceDir baseName targetDir prefix w
  = (Ok (path_join targetDir (prefix +:+ "-" +:+ baseName)),
     moved w sourceDir baseName targetDir prefix content).
Proof.
  intros Hf. unfold moveFileToDir.
  rewrite (bind_ok _ _ _ _ _ (ensureDir_run _ _)).
  erewrite bind_ok; [reflexivity|].
  erewrite renameSync_run; world_simpl; [reflexivity| |].
  - by rewrite file_mkdir.
  - apply has_dir_mkdir. by left.
Qed.

End Runs.

(** ** Sorted listings *)

Lemma insert_by_perm (cmp : string -> string -> Z) (x : string) (l : list string) :
  insert_by cmp x l ≡ₚ x :: l.
Proof.
  induction l as [|y l IH]; simpl; [done|].
  destruct (cmp x y <=? 0)%Z; [done|]. rewrite IH. apply Permutation_swap.
Qed.

Lemma sort_by_perm (cmp : string -> string -> Z) (l : list string) :
  sort_by cmp l ≡ₚ l.
Proof.
  induction l as [|x l IH]; simpl; [done|].
  rewrite insert_by_perm. by rewrite IH.
Qed.

Section Listing.

Variable E : platform.

Lemma listFiles_world (dirPath suffix : string) (w : world) :
  (listFiles E dirPath suffix w).2 = w.
Proof. unfold listFiles. by destruct (fs w !! dirPath). Qed.

Lemma listFiles_ok (dirPath suffix : string) (w : world) :
  exists files, listFiles E dirPath suffix w = (Ok files, w).
Proof. unfold listFiles. destruct (fs w !! dirPath); eauto. Qed.

(** [listFiles] returns, once each, the names in the directory that end
    with the suffix. *)
Lemma listFiles_spec (dirPath suffix : string) (w : world) (files : list string) :
  listFiles E dirPath suffix w = (Ok files, w) ->
  NoDup files /\
  forall fileName, fileName ∈ files <->
    is_Some (Fs.file (fs w) dirPath fileName) /\ Str.ends_with fileName suffix = true.
Proof.
  unfold listFiles, Fs.file. destruct (fs w !! dirPath) as [d|] eqn:Hd.
  - intros [= <-]. split.
    + rewrite sort_by_perm. apply NoDup_ListNoDup, List.NoDup_filter, NoDup_ListNoDup.
      apply NoDup_fst_map_to_list.
    + intros fileName. rewrite sort_by_perm, list_elem_of_In, filter_In, <- list_elem_of_In.
      rewrite list_elem_of_fmap. split.
      * intros [([k v] & -> & Hin) Hs]. apply elem_of_map_to_list in Hin.
        simpl. rewrite Hin. eauto.
      * intros [[v Hv] Hs]. split; [|done]. exists (fileName, v). split; [done|].
        by apply elem_of_map_to_list.
  - intros [= <-]. split; [constructor|]. intros fileName. split.
    + by intros ?%elem_of_nil.
    + by intros [[? ?] _].
Qed.

End Listing.

(** ** Recovery *)

Section Recovery.

Variable E : platform.
Hypothesis reliable : forall n, io_error E n = None.

Variables processingDir inboxDir : string.
Hypothesis apart : processingDir <> inboxDir.

Lemma recoverEach_run (stale : list string) (w : world) :
  NoDup stale ->
  (forall fileName, fileName ∈ stale -> is_Some (Fs.file (fs w) processingDir fileName)) ->
  has_dir (fs w) inboxDir ->
  exists w',
    recoverEach E processingDir inboxDir stale w = (Ok tt, w') /\
    (forall fileName content,
        fileName ∈ stale -> Fs.file (fs w) processingDir fileName = Some content ->
        Fs.file (fs w') inboxDir ("recovered-" +:+ fileName) = Some content /\
        Fs.file (fs w') processingDir fileName = None) /\
    (forall dir fileName,
        (dir = processingDir -> fileName ∉ stale) ->
        (dir = inboxDir -> forall other, other ∈ stale -> fileName <> "recovered-" +:+ other) ->
        Fs.file (fs w') dir fileName = Fs.file (fs w) dir fileName).
Proof.
  revert w. induction stale as [|f rest IH]; intros w Hnd Hin Hinbox.
  - exists w. split; [done|]. split; [|done]. by intros ? ? ?%elem_of_nil.
  - apply NoDup_cons in Hnd as [Hf Hnd].
    destruct (Hin f) as [c Hc]; [by left|].
    set (w1 := set_fs (next_write w)
                 (Fs.put (Fs.remove (fs w) processingDir f) inboxDir ("recovered-" +:+ f) c)).
    assert (Hframe : forall dir fileName,
               (dir = processingDir -> fileName <> f) ->
               (dir = inboxDir -> fileName <> "recovered-" +:+ f) ->
               Fs.file (fs w1) dir fileName = Fs.file (fs w) dir fileName).
    { intros dir fileName Hp Hi. subst w1. world_simpl.
      rewrite file_put_ne, file_remove_ne; [done| |].
      - destruct (decide (processingDir = dir)) as [<-|?]; [right|by left].
        intros ->. by apply Hp.
      - destruct (decide (inboxDir = dir)) as [<-|?]; [right|by left].
        intros Heq. by apply Hi. }
    destruct (IH w1) as (w' & Hrun & Hmoved & Hkept); [done| |..].
    { intros g Hg. rewrite Hframe; [apply Hin; by right| |].
      - intros _ ->. done.
      - intros ?. done. }
    { subst w1. world_simpl. apply has_dir_put, has_dir_remove. done. }
    exists w'. split.
    { simpl. erewrite bind_ok; [exact Hrun|]. by apply renameSync_run. }
    split.
    + intros g content [->|Hg]%elem_of_cons Hgc.
      * assert (content = c) as -> by congruence.
        rewrite !Hkept.
        -- subst w1. world_simpl. rewrite file_put_eq by (by apply has_dir_remove).
           split; [done|]. rewrite file_put_ne by (by left). apply file_remove_eq.
        -- done.
        -- intros ->. done.
        -- intros ->. done.
        -- intros _ other Hother Heq. apply (inj (String.app "recovered-")) in Heq.
           by subst.
      * apply Hmoved; [done|]. rewrite Hframe; [done| |].
        -- intros _ ->. done.
        -- intros ->. done.
    + intros dir fileName Hp Hi. rewrite Hkept, Hframe; [done|..].
      * intros Hd ->. apply (Hp Hd). by left.
      * intros Hd. apply (Hi Hd). by left.
      * intros Hd Hr. apply (Hp Hd). by right.
      * intros Hd other Hother. apply (Hi Hd). by right.
Qed.

Lemma log_fs (message extra : string) (w : world) :
  exists w', log E message extra w = (Ok tt, w') /\ fs w' = fs w /\
             events w' = events w /\ spawned w' = spawned w.
Proof. unfold log. rewrite (bind_ok _ _ _ _ _ (nowIso_run E w)). eauto. Qed.

(** C6. At startup [recoverProcessing] renames every [.json] file of
    the processing directory into the inbox, with [recovered-] put
    before its name, and the content of the file is what it was. *)
Theorem recoverProcessing_renames (w : world) :
  has_dir (fs w) inboxDir ->
  exists w',
    recoverProcessing E processingDir inboxDir w = (Ok tt, w') /\
    forall fileName content,
      Fs.file (fs w) processingDir fileName = Some content ->
      Str.ends_with fileName ".json" = true ->
      Fs.file (fs w') inboxDir ("recovered-" +:+ fileName) = Some content /\
      Fs.file (fs w') processingDir fileName = None.
Proof.
  intros Hinbox. unfold recoverProcessing.
  destruct (listFiles_ok E processingDir ".json" w) as [stale Hstale].
  destruct (listFiles_spec E _ _ _ _ Hstale) as [Hnd Hmem].
  destruct (recoverEach_run stale w Hnd) as (w1 & Hrun & Hmoved & _); [|done|].
  { intros f Hf. by apply Hmem. }
  rewrite (bind_ok _ _ _ _ _ Hstale), (bind_ok _ _ _ _ _ Hrun).
  assert (Hgoal : forall fileName content,
             Fs.file (fs w) processingDir fileName = Some content ->
             Str.ends_with fileName ".json" = true ->
             Fs.file (fs w1) inboxDir ("recovered-" +:+ fileName) = Some content /\
             Fs.file (fs w1) processingDir fileName = None).
  { intros f c Hf Hs. apply Hmoved; [|done]. apply Hmem. eauto. }
  destruct (0 <? length stale)%nat.
  - destruct (log_fs ("Recovered " +:+ pretty (length stale) +:+
                        " task(s) from processing back to inbox.") "" w1)
      as (w' & -> & Hfs & _).
    exists w'. split; [done|]. by rewrite Hfs.
  - by exists w1.
Qed.

End Recovery.

(** ** The task state machine *)

Lemma prefixed_ne (fileName prefix : string) : fileName <> prefix +:+ "-" +:+ fileName.
Proof.
  intros H. apply (f_equal String.length) in H.
  rewrite !string_app_length in H. simpl in H. lia.
Qed.

Ltac path_ne :=
  let H := fresh in
  intros H; rewrite ?path_join_assoc in H; apply path_join_inj in H; discriminate H.

Section Engine.

Variable E : platform.
Hypothesis reliable : forall n, io_error E n = None.

Variable context : Context.
Variable homeDir : string.
Hypothesis layout : dirs context = homeDirs homeDir.

#[local] Abbreviation inboxDir := (inbox (dirs context)).
#[local] Abbreviation processingDir := (processing (dirs context)).
#[local] Abbreviation failedDir := (failed (dirs context)).
#[local] Abbreviation completedDir := (completed (dirs context)).
#[local] Abbreviation runsDir := (runs (dirs context)).

Lemma inbox_ne_processing : inboxDir <> processingDir.
Proof. rewrite layout. simpl. path_ne. Qed.
Lemma inbox_ne_failed : inboxDir <> failedDir.
Proof. rewrite layout. simpl. path_ne. Qed.
Lemma processing_ne_failed : processingDir <> failedDir.
Proof. rewrite layout. simpl. path_ne. Qed.
Lemma worktrees_ne_processing : worktrees (dirs context) <> processingDir.
Proof. rewrite layout. simpl. path_ne. Qed.
Lemma worktrees_ne_inbox : worktrees (dirs context) <> inboxDir.
Proof. rewrite layout. simpl. path_ne. Qed.

(** The claim of a pending task succeeds. *)
Lemma processOneTask_claims (w : world) (fileName text : string) :
  pending E context w fileName text ->
  processOneTask E context w = processClaimed E context fileName (claimed context w fileName text).
Proof.
  intros ([rest Hlist] & Hfile & Hdir & Hagents). unfold processOneTask.
  rewrite (bind_ok _ _ _ _ _ Hlist).
  destruct (agents context) as [|a l]; [done|]. unfold processFile.
  erewrite bind_ok; cycle 1.
  { apply trying_run. by apply renameSync_run. }
  reflexivity.
Qed.

Lemma claimed_processing (w : world) (fileName text : string) :
  has_dir (fs w) processingDir ->
  Fs.file (fs (claimed context w fileName text)) processingDir fileName = Some text.
Proof. intros Hdir. unfold claimed. world_simpl. apply file_put_eq. by apply has_dir_remove. Qed.

Lemma claimed_inbox (w : world) (fileName text : string) :
  Fs.file (fs (claimed context w fileName text)) inboxDir fileName = None.
Proof.
  unfold claimed. world_simpl. rewrite file_put_ne.
  - apply file_remove_eq.
  - left. intros Heq. by apply inbox_ne_processing.
Qed.

Lemma claimed_inbox_frame (w : world) (fileName text other : string) :
  Fs.file (fs (claimed context w fileName text)) inboxDir other
  = if decide (other = fileName) then None else Fs.file (fs w) inboxDir other.
Proof.
  unfold claimed. world_simpl.
  rewrite file_put_ne by (left; intros ?; by apply inbox_ne_processing).
  case_decide as Hother.
  - subst other. apply file_remove_eq.
  - apply file_remove_ne. right. by intros ->.
Qed.

(** *** Invalid JSON *)

Lemma processClaimed_invalid_json (w : world) (fileName text error : string) :
  Fs.file (fs w) processingDir fileName = Some text ->
  JSON_parse E text = Throw error ->
  let stamp := pretty (clock E (ticks w)) in
  let target := stamp +:+ "-" +:+ fileName in
  exists w',
    processClaimed E context fileName w = (Ok true, w') /\
    fs w' = Fs.put (Fs.remove (Fs.mkdir (fs w) failedDir) processingDir fileName)
              failedDir target text /\
    events w' = events w ++
      [(logPath context,
        JObj [("at", JStr (toISOString E (clock E (S (ticks w)))));
              ("status", JStr "failed"); ("reason", JStr "invalid_json");
              ("file", JStr (path_join failedDir target)); ("error", JStr error)])] /\
    spawned w' = spawned w.
Proof.
  intros Hfile Hparse stamp target. unfold processClaimed.
  rewrite (bind_ok _ _ _ _ _ (Date_now_run E w)).
  erewrite bind_ok; cycle 1.
  { apply trying_run. unfold readJson. world_simpl.
    rewrite Hfile, Hparse. reflexivity. }
  unfold failInvalidJson.
  erewrite bind_ok; cycle 1.
  { eapply moveFileToDir_run; [done|]. world_simpl. exact Hfile. }
  erewrite bind_ok; [|apply nowIso_run].
  erewrite bind_ok; [|by apply appendEvent_run].
  eexists. split; [reflexivity|]. by world_simpl.
Qed.

(** *** Missing prompt *)


(** *** After the agent has returned *)





(** *** From the claim to the result of the agent *)









Lemma execution_claimed (agent : Agent) (w : world) (fileName text : string)
    (result : SpawnResult) :
  execution E context agent w result -> execution E context agent (claimed context w fileName text) result.
Proof. done. Qed.

(** *** The retry *)


(** *** The last failure *)


(** *** Defective payloads *)

Lemma processOneTask_invalid_json (w : world) (fileName text error : string) :
  pending E context w fileName text ->
  JSON_parse E text = Throw error ->
  let target := pretty (clock E (ticks w)) +:+ "-" +:+ fileName in
  exists w',
    processOneTask E context w = (Ok true, w') /\
    Fs.file (fs w') failedDir target = Some text /\
    Fs.file (fs w') processingDir fileName = None /\
    (forall other, Fs.file (fs w') inboxDir other
                   = if decide (other = fileName) then None
                     else Fs.file (fs w) inboxDir other) /\
    events w' = events w ++
      [(logPath context,
        JObj [("at", JStr (toISOString E (clock E (S (ticks w)))));
              ("status", JStr "failed"); ("reason", JStr "invalid_json");
              ("file", JStr (path_join failedDir target)); ("error", JStr error)])] /\
    spawned w' = spawned w.
Proof.
  intros Hpending Hparse target.
  rewrite (processOneTask_claims _ _ _ Hpending).
  destruct Hpending as (_ & Hfile & Hdir & _).
  destruct (processClaimed_invalid_json (claimed context w fileName text) fileName text error)
    as (w' & -> & Hfs & Hev & Hsp); [by apply claimed_processing|done|].
  exists w'. split; [done|]. rewrite Hfs. split; [|split; [|split]].
  - apply file_put_eq. apply has_dir_remove, has_dir_mkdir. by left.
  - rewrite file_put_ne by (left; intros ?; by apply processing_ne_failed).
    apply file_remove_eq.
  - intros other. rewrite file_put_ne by (left; intros ?; by apply inbox_ne_failed).
    rewrite file_remove_ne by (left; intros ?; by apply inbox_ne_processing).
    rewrite file_mkdir. apply claimed_inbox_frame.
  - done.
Qed.


(** A task file that holds the JSON value [null] is parsed, and line 373
    then reads a property of [null]: the error leaves [processOneTask],
    and the file stays in [processing]. *)
Lemma processOneTask_null_task (w : world) (fileName text : string) :
  pending E context w fileName text ->
  JSON_parse E text = Ok JNull ->
  exists error w',
    processOneTask E context w = (Throw error, w') /\
    Fs.file (fs w') processingDir fileName = Some text /\
    events w' = events w.
Proof.
  intros Hpending Hparse.
  rewrite (processOneTask_claims _ _ _ Hpending).
  destruct Hpending as (_ & Hfile & Hdir & _).
  unfold processClaimed.
  erewrite bind_ok; [|apply Date_now_run].
  erewrite bind_ok; cycle 1.
  { apply trying_run. unfold readJson. world_simpl.
    rewrite claimed_processing by done. rewrite Hparse. reflexivity. }
  eexists _, _. split; [reflexivity|]. world_simpl. split; [|done].
  by apply claimed_processing.
Qed.

(** *** The claim *)

(** Once a file has been claimed, another attempt to claim it fails, and
    the attempt ends there: nothing is read, moved, logged or run. *)
Lemma processFile_already_claimed (other : Context) (w : world) (fileName : string) :
  dirs other = dirs context ->
  Fs.file (fs w) inboxDir fileName = None ->
  (exists error,
      renameSync E inboxDir fileName processingDir fileName w = (Throw error, next_write w)) /\
  processFile E other fileName w = (Ok true, next_write w).
Proof.
  intros Hsame Hgone.
  destruct (rename_missing (fs w) inboxDir fileName processingDir fileName Hgone)
    as [error Herr].
  assert (Hrename : renameSync E inboxDir fileName processingDir fileName w
                    = (Throw error, next_write w)).
  { unfold renameSync, mutate. by rewrite reliable, Herr. }
  split; [eauto|]. unfold processFile. rewrite Hsame.
  erewrite bind_ok; [|apply trying_run; exact Hrename]. reflexivity.
Qed.

End Engine.

(** ** The agent registry *)

Lemma strict_eq_eq (a b : jsval) : Js.strict_eq a b = true -> a = b.
Proof.
  destruct a, b; simpl; try discriminate; try reflexivity.
  - intros H. apply Bool.eqb_prop in H. by subst.
  - intros H. apply Z.eqb_eq in H. by subst.
  - intros H. apply String.eqb_eq in H. by subst.
Qed.

Lemma strict_eq_sym (a b : jsval) : Js.strict_eq a b = Js.strict_eq b a.
Proof.
  destruct a, b; simpl; try reflexivity.
  - by destruct b, b0.
  - apply Z.eqb_sym.
  - apply String.eqb_sym.
Qed.

Section Registry.

Variable E : platform.

Lemma listFiles_listed (dirPath suffix : string) (w : world) :
  listFiles E dirPath suffix w = (Ok (listed E (fs w) dirPath suffix), w).
Proof. unfold listFiles, listed. by destruct (fs w !! dirPath). Qed.

Lemma log_quiet (message extra : string) (w : world) :
  exists w', log E message extra w = (Ok tt, w') /\ fs w' = fs w.
Proof. unfold log. rewrite (bind_ok _ _ _ _ _ (nowIso_run E w)). eauto. Qed.

Lemma loadAgentFile_run (agentsDir fileName : string) (w : world) :
  exists r w',
    loadAgentFile E agentsDir fileName w = (r, w') /\ fs w' = fs w /\
    agentOf E (fs w) agentsDir fileName
    = match r with Ok (Some a) => Some a | _ => None end.
Proof.
  unfold loadAgentFile, agentOf, bind, readJson.
  destruct (Fs.file (fs w) agentsDir fileName) as [text|]; [|by eauto].
  destruct (JSON_parse E text) as [parsed|error]; [|by eauto].
  assert (Hskip : exists r w',
             (let* _ := log E ("Skipping invalid agent config: "
                                 +:+ path_join agentsDir fileName) "" in ret None) w
             = (r, w') /\ fs w' = fs w /\
             None = match r with Ok (Some a) => Some a | _ => @None Agent end).
  { destruct (log_quiet ("Skipping invalid agent config: "
                           +:+ path_join agentsDir fileName) "" w) as (w' & Hlog & Hfs).
    rewrite (bind_ok _ _ _ _ _ Hlog). by eexists _, _. }
  destruct parsed as [| | | | | |agent]; try (by eauto); try exact Hskip.
  change (Js.props (JObj agent)) with agent.
  destruct (Js.strict_eq (Js.get agent "enabled") (JBool false));
    [eexists _, _; split; [reflexivity|done]|].
  destruct (negb (Js.truthy (Js.get agent "name")) || negb (Js.truthy (Js.get agent "command")));
    [exact Hskip|].
  unfold commandExists, lift.
  destruct (which E (Js.to_string (Js.get agent "command"))) as [[|]|];
    (eexists _, _; split; [reflexivity|done]).
Qed.

Lemma loadAgentFiles_run (agentsDir : string) (files : list string)
    (byName : list (jsval * Agent)) (w : world) :
  exists w',
    loadAgentFiles E agentsDir files byName w
    = (Ok (merge byName (omap (agentOf E (fs w) agentsDir) files)), w') /\
    fs w' = fs w.
Proof.
  revert byName w. induction files as [|f rest IH]; intros byName w; [by eauto|].
  destruct (loadAgentFile_run agentsDir f w) as (r & w1 & Hrun & Hfs & Hof).
  simpl. rewrite (bind_ok _ _ _ _ _ (trying_run _ _ _ _ Hrun)), Hof.
  destruct r as [[a|]|error].
  - destruct (IH (map_set byName (name a) a) w1) as (w' & -> & Hfs').
    exists w'. by rewrite Hfs, Hfs'.
  - destruct (IH byName w1) as (w' & -> & Hfs'). exists w'. by rewrite Hfs, Hfs'.
  - destruct (log_quiet ("Failed to load agent config: " +:+ path_join agentsDir f) error w1)
      as (w2 & Hlog & Hfs2).
    rewrite (bind_ok _ _ _ _ _ Hlog).
    destruct (IH byName w2) as (w' & -> & Hfs'). exists w'.
    by rewrite Hfs2, Hfs in Hfs' |- *.
Qed.

Lemma merge_app (byName : list (jsval * Agent)) (l1 l2 : list Agent) :
  merge byName (l1 ++ l2) = merge (merge byName l1) l2.
Proof. apply fold_left_app. Qed.

Lemma loadAgentDirs_run (agentsDirs : list string) (byName : list (jsval * Agent))
    (w : world) :
  exists w',
    loadAgentDirs E agentsDirs byName w
    = (Ok (merge byName (agentsDirs ≫= dirDefinitions E (fs w))), w') /\
    fs w' = fs w.
Proof.
  revert byName w. induction agentsDirs as [|dir rest IH]; intros byName w; [by eauto|].
  simpl. unfold bind at 1. unfold dirDefinitions at 1.
  destruct (String.eqb dir "" || negb (bool_decide (is_Some (fs w !! dir)))).
  - apply IH.
  - rewrite (bind_ok _ _ _ _ _ (listFiles_listed _ _ _)).
    destruct (loadAgentFiles_run dir (listed E (fs w) dir ".agent.json") byName w)
      as (w1 & Hrun & Hfs).
    rewrite (bind_ok _ _ _ _ _ Hrun).
    destruct (IH (merge byName (omap (agentOf E (fs w) dir)
                                  (listed E (fs w) dir ".agent.json"))) w1)
      as (w' & -> & Hfs').
    exists w'. rewrite merge_app, Hfs. split; [done|]. by rewrite Hfs'.
Qed.

(** [loadAgents] computes the registry of the definitions found, read in
    the order of the directories and, inside a directory, of the sorted
    file names; it never throws. *)
Lemma loadAgents_run (agentsDirs : list string) (w : world) :
  exists w',
    loadAgents E agentsDirs w
    = (Ok (merge [] (agentsDirs ≫= dirDefinitions E (fs w))).*2, w') /\
    fs w' = fs w.
Proof.
  unfold loadAgents.
  destruct (loadAgentDirs_run agentsDirs [] w) as (w' & Hrun & Hfs).
  rewrite (bind_ok _ _ _ _ _ Hrun). by exists w'.
Qed.

End Registry.

(** *** The [Map]: the last definition of a name wins *)

Lemma map_set_elem (m : list (jsval * Agent)) (key : jsval) (a : Agent) (k : jsval) (b : Agent) :
  (k, b) ∈ map_set m key a -> (k, b) ∈ m \/ (k = key /\ b = a).
Proof.
  induction m as [|[k0 a0] rest IH]; simpl.
  - intros [= -> ->]%list_elem_of_singleton. by right.
  - destruct (Js.strict_eq k0 key) eqn:Hk.
    + intros [Heq|Hin]%elem_of_cons.
      * inversion Heq; subst. right. split; [by apply strict_eq_eq|done].
      * left. by right.
    + intros [Heq|Hin]%elem_of_cons.
      * left. rewrite Heq. by left.
      * destruct (IH Hin) as [?|?]; [left; by right|by right].
Qed.



Lemma map_set_distinct (m : list (jsval * Agent)) (key : jsval) (a : Agent) :
  distinct_keys m -> distinct_keys (map_set m key a).
Proof.
  induction m as [|[k0 a0] rest IH]; simpl.
  - intros _. split; [|done]. by intros ? ? ?%elem_of_nil.
  - intros [Hk0 Hrest]. destruct (Js.strict_eq k0 key) eqn:Hk; simpl.
    + done.
    + split; [|by apply IH]. intros k' b [Hin|[-> ->]]%map_set_elem; [by eapply Hk0|done].
Qed.


Lemma merge_invariant (m : list (jsval * Agent)) (defs : list Agent) :
  distinct_keys m -> named m -> distinct_keys (merge m defs) /\ named (merge m defs).
Proof.
  revert m. induction defs as [|a defs IH]; intros m Hd Hn; [done|].
  simpl. apply IH; [by apply map_set_distinct|].
  intros k b [Hin|[-> ->]]%map_set_elem; [by apply Hn|done].
Qed.




Lemma merge_elem (m : list (jsval * Agent)) (defs : list Agent) (k : jsval) (b : Agent) :
  (k, b) ∈ merge m defs -> (k, b) ∈ m \/ b ∈ defs.
Proof.
  revert m. induction defs as [|a defs IH]; intros m; [by left|].
  simpl. intros [[Hin|[-> ->]]%map_set_elem|Hin]%IH.
  - by left.
  - right. by left.
  - right. by right.
Qed.



Lemma listed_spec (E : platform) (x : gmap string (gmap string string))
    (dirPath suffix fileName : string) :
  fileName ∈ listed E x dirPath suffix <->
  is_Some (Fs.file x dirPath fileName) /\ Str.ends_with fileName suffix = true.
Proof.
  pose proof (listFiles_listed E dirPath suffix (mkWorld x [] [] [] 0 0)) as Hl.
  by destruct (listFiles_spec E _ _ _ _ Hl) as [_ Hmem].
Qed.


(** ** The execution engine *)


(** ** The transitions of a claimed task *)







(** C5. A claimed file whose content does not parse as JSON goes to the
    failed directory with the content it had, with the reason
    [invalid_json]; no agent is run. *)
Theorem invalid_json_fails (E : platform) (context : Context) (homeDir : string)
    (w : world) (fileName text error : string) :
  (forall n, io_error E n = None) ->
  dirs context = homeDirs homeDir ->
  pending E context w fileName text ->
  JSON_parse E text = Throw error ->
  exists w',
    processOneTask E context w = (Ok true, w') /\
    failed_as context w w' fileName text "invalid_json" /\
    spawned w' = spawned w.
Proof.
  intros Hio Hlayout Hpending Hparse.
  destruct (processOneTask_invalid_json E Hio context homeDir Hlayout w fileName text error
              Hpending Hparse) as (w' & Hrun & Hfile & Hgone & Hinbox & Hevent & Hspawned).
  exists w'. split; [done|]. split; [|done].
  unfold failed_as. rewrite Hevent. repeat split; eauto.
Qed.


(** C9. Two daemons that have both listed [fileName] claim it by the same
    rename. Whichever rename comes first succeeds; the other one fails,
    and the daemon that made it returns at once: it reads, moves, logs and
    runs nothing, so the task is executed by the first daemon only. *)
Theorem claim_is_exclusive (E : platform) (first second : Context) (homeDir : string)
    (w : world) (fileName text : string) :
  (forall n, io_error E n = None) ->
  dirs first = homeDirs homeDir ->
  dirs second = dirs first ->
  Fs.file (fs w) (inbox (dirs first)) fileName = Some text ->
  has_dir (fs w) (processing (dirs first)) ->
  let w1 := claimed first w fileName text in
  renameSync E (inbox (dirs first)) fileName (processing (dirs first)) fileName w = (Ok tt, w1) /\
  (exists error,
      renameSync E (inbox (dirs second)) fileName (processing (dirs second)) fileName w1
      = (Throw error, next_write w1)) /\
  processFile E second fileName w1 = (Ok true, next_write w1) /\
  fs (next_write w1) = fs w1 /\
  events (next_write w1) = events w /\
  spawned (next_write w1) = spawned w.
Proof.
  intros Hio Hlayout Hsame Hfile Hdir w1. split.
  { by apply renameSync_run. }
  destruct (processFile_already_claimed E Hio first second w1 fileName Hsame)
    as [Hrename Hskip].
  { by apply claimed_inbox with (homeDir := homeDir). }
  rewrite Hsame. by repeat split.
Qed.

(** * Properties of the code beyond the specification *)

(** ** Names *)

Lemma every_char_app p a b : every_char p (a +:+ b) = every_char p a && every_char p b.
Proof. induction a as [|c a IH]; [done|]. rewrite string_app_cons. simpl. by rewrite IH, andb_assoc. Qed.

Lemma every_char_rev_app p a b : every_char p (String.rev_app a b) = every_char p a && every_char p b.
Proof.
  revert b. induction a as [|c a IH]; intros b; [done|]. simpl. rewrite IH. simpl.
  destruct (p c), (every_char p a), (every_char p b); done.
Qed.

Lemma every_char_rev p a : every_char p (String.rev a) = every_char p a.
Proof. unfold String.rev. rewrite every_char_rev_app. simpl. apply andb_true_r. Qed.







Lemma map_lower_alnum s :
  every_char Slug.is_alnum s = true -> Slug.map_chars Slug.lower s = s.
Proof.
  induction s as [|c s IH]; [done|]. simpl. intros [Hc Hs]%andb_true_iff.
  rewrite IH by done. f_equal.
  unfold Slug.lower, Slug.is_alnum in *.
  destruct ((65 <=? Str.code c) && (Str.code c <=? 90))%N eqn:Hu; [|done].
  exfalso. apply andb_true_iff in Hu as [H1%N.leb_le H2%N.leb_le].
  apply orb_true_iff in Hc as [[H3%N.leb_le H4%N.leb_le]%andb_true_iff
                              |[H3%N.leb_le H4%N.leb_le]%andb_true_iff]; lia.
Qed.

Lemma squeeze_alnum s :
  every_char Slug.is_alnum s = true -> Slug.squeeze false s = s.
Proof.
  induction s as [|c s IH]; [done|]. simpl. intros [Hc Hs]%andb_true_iff.
  by rewrite Hc, IH.
Qed.

Lemma drop_dashes_alnum s :
  every_char Slug.is_alnum s = true -> Slug.drop_dashes s = s.
Proof.
  destruct s as [|c s]; [done|]. simpl. intros [Hc _]%andb_true_iff.
  destruct c as [[] [] [] [] [] [] [] []]; try done.
Qed.

Lemma rev_app_rev_app a b c :
  String.rev_app (String.rev_app a b) c = String.rev_app b (a +:+ c).
Proof.
  revert b c. induction a as [|x a IH]; intros b c; [done|]. simpl. by rewrite IH.
Qed.

Lemma string_rev_involutive s : String.rev (String.rev s) = s.
Proof.
  unfold String.rev. rewrite rev_app_rev_app. simpl.
  induction s as [|x s IH]; [done|]. by rewrite string_app_cons, IH.
Qed.

Lemma strip_dashes_alnum s :
  every_char Slug.is_alnum s = true -> Slug.strip_dashes s = s.
Proof.
  intros H. unfold Slug.strip_dashes. rewrite (drop_dashes_alnum s) by done.
  rewrite drop_dashes_alnum by (by rewrite every_char_rev).
  apply string_rev_involutive.
Qed.

Lemma substring_all m s : (String.length s <= m)%nat -> String.substring 0 m s = s.
Proof.
  revert m. induction s as [|c s IH]; intros [|m] H; simpl in *; try done; try lia.
  rewrite IH; [done|lia].
Qed.

(** X2. [slugify] leaves a clean identifier as it is: a non-empty string of
    at most 60 lower-case letters and digits is its own slug. *)
Theorem slugify_keeps_a_clean_id (s : string) :
  s <> "" ->
  every_char Slug.is_alnum s = true ->
  (String.length s <= 60)%nat ->
  Slug.slugify (JStr s) = s.
Proof.
  intros Hne Hchars Hlen. unfold Slug.slugify, Js.or_else. simpl.
  apply String.eqb_neq in Hne. rewrite Hne. simpl.
  rewrite map_lower_alnum, squeeze_alnum, strip_dashes_alnum by done.
  unfold Str.slice0. rewrite substring_all by (simpl; lia). by rewrite Hne.
Qed.

Lemma drop_punctuation_app a b :
  Slug.drop_punctuation (a +:+ b) = Slug.drop_punctuation a +:+ Slug.drop_punctuation b.
Proof.
  induction a as [|c a IH]; [done|]. rewrite string_app_cons. simpl.
  destruct (_ || _)%bool; [done|]. by rewrite string_app_cons, IH.
Qed.

Lemma is_digit_plain c :
  is_digit c = true ->
  (Ascii.eqb c "-" || Ascii.eqb c ":" || Ascii.eqb c ".")%bool = false /\
  Ascii.eqb c "T" = false /\ Ascii.eqb c "Z" = false.
Proof.
  unfold is_digit, Str.code.
  destruct c as [[] [] [] [] [] [] [] []]; vm_compute; try done.
Qed.

Lemma drop_punctuation_digits s :
  every_char is_digit s = true -> Slug.drop_punctuation s = s.
Proof.
  induction s as [|c s IH]; [done|]. simpl. intros [Hc Hs]%andb_true_iff.
  destruct (is_digit_plain c Hc) as (-> & _). by rewrite IH.
Qed.

Lemma replace_first_digits from to a b :
  (forall c, is_digit c = true -> Ascii.eqb c from = false) ->
  every_char is_digit a = true ->
  Slug.replace_first from to (a +:+ b) = a +:+ Slug.replace_first from to b.
Proof.
  intros Hfrom. induction a as [|c a IH]; [done|]. simpl. intros [Hc Hs]%andb_true_iff.
  rewrite string_app_cons. simpl. rewrite (Hfrom c Hc). by rewrite IH.
Qed.

Lemma drop_punctuation_digits_app a b :
  every_char is_digit a = true ->
  Slug.drop_punctuation (a +:+ b) = a +:+ Slug.drop_punctuation b.
Proof. intros H. by rewrite drop_punctuation_app, drop_punctuation_digits. Qed.

Lemma digit_not_T c : is_digit c = true -> Ascii.eqb c "T" = false.
Proof. intros H. by apply is_digit_plain. Qed.

Lemma digit_not_Z c : is_digit c = true -> Ascii.eqb c "Z" = false.
Proof. intros H. by apply is_digit_plain. Qed.

(** X3. [tsCompact] on an ISO timestamp [YYYY-MM-DDTHH:MM:SS.mmmZ]: the
    dashes, the colons and the dot go, the [T] becomes a dash and the [Z]
    stays, which gives [YYYYMMDD-HHMMSSmmmZ]. *)
Theorem compact_iso (year month day hour minute second millis : string) :
  every_char is_digit (year +:+ month +:+ day +:+ hour +:+ minute +:+ second +:+ millis) = true ->
  Slug.compact (year +:+ "-" +:+ month +:+ "-" +:+ day +:+ "T" +:+
                hour +:+ ":" +:+ minute +:+ ":" +:+ second +:+ "." +:+ millis +:+ "Z")
  = year +:+ month +:+ day +:+ "-" +:+ hour +:+ minute +:+ second +:+ millis +:+ "Z".
Proof.
  rewrite !every_char_app. intros H.
  repeat (apply andb_true_iff in H as [? H]).
  unfold Slug.compact.
  assert (Hdrop : Slug.drop_punctuation
                    (year +:+ "-" +:+ month +:+ "-" +:+ day +:+ "T" +:+
                     hour +:+ ":" +:+ minute +:+ ":" +:+ second +:+ "." +:+ millis +:+ "Z")
                  = year +:+ month +:+ day +:+ "T" +:+
                    hour +:+ minute +:+ second +:+ millis +:+ "Z").
  { repeat first [ rewrite drop_punctuation_digits_app by done
                 | rewrite string_app_cons; simpl Slug.drop_punctuation
                 | progress change ("" +:+ ?x) with x ].
    reflexivity. }
  rewrite Hdrop.
  assert (HT : Slug.replace_first "T" "-"
                 (year +:+ month +:+ day +:+ "T" +:+
                  hour +:+ minute +:+ second +:+ millis +:+ "Z")
               = year +:+ month +:+ day +:+ "-" +:+
                 hour +:+ minute +:+ second +:+ millis +:+ "Z").
  { rewrite !(replace_first_digits "T") by (done || apply digit_not_T). reflexivity. }
  rewrite HT.
  rewrite !(replace_first_digits "Z") by (done || apply digit_not_Z).
  rewrite string_app_cons. simpl Slug.replace_first.
  change ("" +:+ ?x) with x.
  rewrite !(replace_first_digits "Z") by (done || apply digit_not_Z).
  reflexivity.
Qed.

(** ** Branches and worktrees *)

Lemma prefix_app a b : String.prefix a (a +:+ b) = true.
Proof.
  induction a as [|c a IH]; [by destruct b|]. rewrite string_app_cons. simpl.
  by destruct (ascii_dec c c).
Qed.

Lemma rev_app_app a b c : String.rev_app (a +:+ b) c = String.rev_app b (String.rev_app a c).
Proof. revert c. induction a as [|x a IH]; intros c; [done|]. rewrite string_app_cons. simpl. apply IH. Qed.

Lemma rev_app_acc a b : String.rev_app a b = String.rev a +:+ b.
Proof.
  unfold String.rev. revert b. induction a as [|x a IH]; intros b; [done|]. simpl.
  rewrite IH, (IH (String x "")). by rewrite string_app_assoc.
Qed.

Lemma string_rev_app a b : String.rev (a +:+ b) = String.rev b +:+ String.rev a.
Proof. unfold String.rev at 1. rewrite rev_app_app. apply rev_app_acc. Qed.

Lemma ends_with_app a b : Str.ends_with (a +:+ b) b = true.
Proof. unfold Str.ends_with. rewrite string_rev_app. apply prefix_app. Qed.

Lemma branchPrefix_slash (E : platform) : Str.ends_with (branchPrefix E) "/" = true.
Proof.
  unfold branchPrefix. cbv zeta.
  set (raw := match branch_prefix_env E with Some _ => _ | None => _ end).
  destruct (Str.ends_with raw "/") eqn:H; [done|]. apply ends_with_app.
Qed.

Lemma flatten_slashes_flat s : every_char not_slash (Slug.flatten_slashes s) = true.
Proof.
  induction s as [|c s IH]; [done|]. simpl.
  destruct (Ascii.eqb c "/") eqn:Hc.
  - by rewrite every_char_app, IH.
  - simpl. unfold not_slash at 1. by rewrite Hc, IH.
Qed.

(** X4. When [createWorktree] returns, the branch is the prefix, which ends
    with a slash, followed by the slugs of the agent name and of the task
    id and by a time stamp; the worktree is a directory directly inside
    [worktreesDir], whose own name has no slash; [worktreesDir] exists; and
    one [git worktree add -b branch path] has been started in the
    repository root. *)
Theorem createWorktree_names (E : platform) (repoRoot worktreesDir : string)
    (agentName taskId : jsval) (w w' : world) (branch worktreePath : string) :
  createWorktree E repoRoot worktreesDir agentName taskId w = (Ok (branch, worktreePath), w') ->
  exists (stamp : Z) (directory : string),
    branch = branchPrefix E +:+ Slug.slugify agentName +:+ "-" +:+ Slug.slugify taskId
             +:+ "-" +:+ pretty stamp /\
    Str.ends_with (branchPrefix E) "/" = true /\
    worktreePath = path_join worktreesDir directory /\
    every_char not_slash directory = true /\
    has_dir (fs w') worktreesDir /\
    spawned w' = spawned w ++
      [mkCall (JStr "git") ["worktree"; "add"; "-b"; branch; worktreePath] None repoRoot []].
Proof.
  unfold createWorktree, bind, ensureDir, mutate, Date_now, spawnSync, ret, throw.
  destruct (io_error E (writes w)); [done|]. cbn [fs ticks spawned set_fs next_write next_tick].
  destruct (child E (length (spawned w))) as [result|]; [|done].
  destruct (status result) as [[| |]|]; try done.
  intros [= <- <- <-]. eexists _, _. split; [reflexivity|].
  split; [apply branchPrefix_slash|]. split; [reflexivity|].
  split; [apply flatten_slashes_flat|]. split; [|done].
  cbn [fs add_spawned next_tick set_fs]. apply has_dir_mkdir. by left.
Qed.

(** ** Listings and moves *)

Lemma insert_by_sorted cmp x l :
  consistent cmp ->
  StronglySorted (no_later cmp) l -> StronglySorted (no_later cmp) (insert_by cmp x l).
Proof.
  intros [Htotal Htrans] Hl. induction Hl as [|y l Hl IH Hy]; simpl.
  - repeat constructor.
  - destruct (cmp x y <=? 0)%Z eqn:Hxy.
    + apply Z.leb_le in Hxy. constructor; [by constructor|].
      constructor; [done|]. eapply Forall_impl; [exact Hy|].
      intros z Hz. by eapply Htrans.
    + apply Z.leb_gt in Hxy. constructor; [done|].
      rewrite insert_by_perm. constructor; [|done].
      destruct (Htotal x y) as [H|H]; [unfold no_later in H; lia|done].
Qed.

Lemma sort_by_sorted cmp l :
  consistent cmp -> StronglySorted (no_later cmp) (sort_by cmp l).
Proof.
  intros Hcmp. induction l as [|x l IH]; simpl; [constructor|].
  by apply insert_by_sorted.
Qed.


(** X6. When [localeCompare] is a consistent comparison (total and
    transitive), the list that [listFiles] returns is sorted by it: every
    name comes no later than the names after it. The head, which
    [processOneTask] claims, is a least name. *)
Theorem listFiles_is_sorted (E : platform) (dirPath suffix : string) (w w' : world)
    (files : list string) :
  consistent (localeCompare E) ->
  listFiles E dirPath suffix w = (Ok files, w') ->
  StronglySorted (no_later (localeCompare E)) files.
Proof.
  intros Hcmp. unfold listFiles. destruct (fs w !! dirPath).
  - intros [= <- _]. by apply sort_by_sorted.
  - intros [= <- _]. constructor.
Qed.

(** X7. [moveFileToDir] on an existing file, when no I/O fails: the target
    directory need not exist, the content arrives there under
    [prefix-baseName], the source name is gone, every other file is as it
    was, nothing is logged or started, and the path returned is that of the
    target. *)
Theorem moveFileToDir_moves (E : platform) (sourceDir baseName targetDir prefix content : string)
    (w : world) :
  (forall n, io_error E n = None) ->
  Fs.file (fs w) sourceDir baseName = Some content ->
  exists w',
    moveFileToDir E sourceDir baseName targetDir prefix w
    = (Ok (path_join targetDir (prefix +:+ "-" +:+ baseName)), w') /\
    Fs.file (fs w') targetDir (prefix +:+ "-" +:+ baseName) = Some content /\
    Fs.file (fs w') sourceDir baseName = None /\
    (forall dir fileName,
        (dir, fileName) <> (sourceDir, baseName) ->
        (dir, fileName) <> (targetDir, prefix +:+ "-" +:+ baseName) ->
        Fs.file (fs w') dir fileName = Fs.file (fs w) dir fileName) /\
    events w' = events w /\ spawned w' = spawned w.
Proof.
  intros Hio Hfile. eexists. split; [by apply moveFileToDir_run|].
  unfold moved. cbn [fs events spawned set_fs next_write].
  assert (Hdir : has_dir (Fs.remove (Fs.mkdir (fs w) targetDir) sourceDir baseName) targetDir).
  { apply has_dir_remove, has_dir_mkdir. by left. }
  split; [by apply file_put_eq|]. split.
  - rewrite file_put_ne.
    + apply file_remove_eq.
    + destruct (decide (targetDir = sourceDir)) as [->|?]; [right|by left].
      intros Heq. symmetry in Heq. by apply prefixed_ne in Heq.
  - split; [|done]. intros dir fileName Hsource Htarget.
    rewrite file_put_ne, file_remove_ne, file_mkdir; [done| |].
    + destruct (decide (sourceDir = dir)) as [->|?]; [right|by left]. congruence.
    + destruct (decide (targetDir = dir)) as [->|?]; [right|by left]. congruence.
Qed.

(** ** The registry and the router *)

Lemma quiet_refl w : quiet w w.
Proof. done. Qed.








Lemma agentOf_eligible (E : platform) (x : gmap string (gmap string string))
    (agentsDir fileName : string) (a : Agent) :
  Str.ends_with fileName ".agent.json" = true ->
  agentOf E x agentsDir fileName = Some a ->
  exists agent, eligible E x agentsDir fileName agent /\ a = normalise agent.
Proof.
  intros Hsuffix. unfold agentOf, eligible.
  destruct (Fs.file x agentsDir fileName) as [text|]; [|done].
  destruct (JSON_parse E text) as [[| | | | | |agent]|] eqn:Hparse; try done.
  destruct (Js.strict_eq _ _) eqn:Hen; [done|].
  destruct (Js.truthy (Js.get agent "name")) eqn:Hn; [|done].
  destruct (Js.truthy (Js.get agent "command")) eqn:Hc; [|done]. simpl.
  destruct (which E _) as [[|]|] eqn:Hw; try done. intros [= <-].
  exists agent. repeat split; eauto.
Qed.

(** X9. Every agent that [loadAgents] returns is the normalised content of
    a file [*.agent.json] of one of the directories, which parses to an
    object that is not disabled, has a truthy name and command, and whose
    command is installed. *)
Theorem registry_holds_admitted_definitions (E : platform) (agentsDirs : list string)
    (w w' : world) (agents : list Agent) (a : Agent) :
  loadAgents E agentsDirs w = (Ok agents, w') ->
  a ∈ agents ->
  exists agentsDir fileName agent,
    agentsDir ∈ agentsDirs /\
    eligible E (fs w) agentsDir fileName agent /\
    a = normalise agent.
Proof.
  destruct (loadAgents_run E agentsDirs w) as (w1 & -> & _). intros [= <- _].
  intros ([k b] & -> & Hin)%list_elem_of_fmap. simpl.
  apply merge_elem in Hin as [?%elem_of_nil|Hin]; [done|].
  apply list_elem_of_bind in Hin as (dir & Hb & Hdir).
  unfold dirDefinitions in Hb. destruct (_ || _); [by apply elem_of_nil in Hb|].
  apply list_elem_of_omap in Hb as (f & Hf & Hof).
  apply listed_spec in Hf as [_ Hsuffix].
  destruct (agentOf_eligible _ _ _ _ _ Hsuffix Hof) as (agent & Helig & ->).
  by exists dir, f, agent.
Qed.

Lemma distinct_keys_lookup (m : list (jsval * Agent)) (i j : nat) (k k' : jsval) (a b : Agent) :
  distinct_keys m -> m !! i = Some (k, a) -> m !! j = Some (k', b) -> i <> j ->
  Js.strict_eq k k' = false.
Proof.
  revert i j. induction m as [|[k0 a0] rest IH]; intros i j; [done|].
  intros [Hhead Hrest] Hi Hj Hne. destruct i as [|i], j as [|j]; simpl in *.
  - done.
  - injection Hi as -> ->. eapply Hhead. by eapply list_elem_of_lookup_2.
  - injection Hj as -> ->. rewrite strict_eq_sym. eapply Hhead.
    by eapply list_elem_of_lookup_2.
  - eapply IH; eauto.
Qed.

(** X10. No two agents of the registry that [loadAgents] returns have the
    same name. *)
Theorem registry_names_are_distinct (E : platform) (agentsDirs : list string)
    (w w' : world) (agents : list Agent) (i j : nat) (a b : Agent) :
  loadAgents E agentsDirs w = (Ok agents, w') ->
  agents !! i = Some a -> agents !! j = Some b -> i <> j ->
  Js.strict_eq (name a) (name b) = false.
Proof.
  destruct (loadAgents_run E agentsDirs w) as (w1 & -> & _). intros [= <- _].
  rewrite !list_lookup_fmap. intros Hi Hj Hne.
  destruct (merge_invariant [] (agentsDirs ≫= dirDefinitions E (fs w))) as [Hd Hn];
    [done|by intros ? ? ?%elem_of_nil|].
  destruct (_ !! i) as [[k a']|] eqn:Hi'; [|done].
  destruct (_ !! j) as [[k' b']|] eqn:Hj'; [|done].
  simpl in Hi, Hj. injection Hi as <-. injection Hj as <-.
  rewrite <- (Hn k a'), <- (Hn k' b') by (by eapply list_elem_of_lookup_2).
  by eapply distinct_keys_lookup.
Qed.





Lemma find_member {A} (p : A -> bool) (l : list A) (x : A) : find p l = Some x -> x ∈ l.
Proof. intros [H _]%find_some. by apply list_elem_of_In. Qed.

Lemma firstRouted_member (order : list jsval) (agents : list Agent) (a : Agent) :
  firstRouted order agents = Some a -> a ∈ agents.
Proof.
  induction order as [|n order IH]; simpl; [done|].
  destruct (find _ agents) as [found|] eqn:Hf; [|exact IH].
  intros [= <-]. by eapply find_member.
Qed.

(** X12. [pickAgent] only ever returns an agent of the list it is given. *)
Theorem pickAgent_picks_from_the_list (task : obj) (agents : list Agent) (config : obj)
    (agent : Agent) :
  pickAgent task agents config = Some agent -> agent ∈ agents.
Proof.
  rewrite pickAgent_guarded.
  destruct (if Js.truthy (Js.get task "agent") then _ else _) as [a|] eqn:H1.
  { intros [= <-]. destruct (Js.truthy _); [by eapply find_member|done]. }
  destruct (if Js.truthy (Js.get task "tool") then _ else _) as [a|] eqn:H2.
  { intros [= <-]. destruct (Js.truthy (Js.get task "tool")); [by eapply find_member|done]. }
  destruct (firstRouted _ agents) as [a|] eqn:H3.
  { intros [= <-]. by eapply firstRouted_member. }
  destruct agents as [|first rest]; [done|]. intros [= <-]. by left.
Qed.

(** ** The processes that a computation starts *)




Section Keeps.

Variable E : platform.












End Keeps.

(** ** The execution of a claimed task *)


Section Outcomes.

Variable E : platform.
Hypothesis reliable : forall n, io_error E n = None.

Variable context : Context.
Variable homeDir : string.
Hypothesis layout : dirs context = homeDirs homeDir.

#[local] Abbreviation inboxDir := (inbox (dirs context)).
#[local] Abbreviation processingDir := (processing (dirs context)).
#[local] Abbreviation failedDir := (failed (dirs context)).
#[local] Abbreviation completedDir := (completed (dirs context)).
#[local] Abbreviation runsDir := (runs (dirs context)).










End Outcomes.

(** ** What becomes of a task that is run *)


Lemma agent_returns_claimed (E : platform) (context : Context) (agent : Agent) (w : world)
    (fileName text : string) (result : SpawnResult) :
  agent_returns E context agent w result ->
  agent_returns E context agent (claimed context w fileName text) result.
Proof. done. Qed.








(** ** Errors that the [try] catches *)





(** ** No task file is lost *)

Section Maintains.

Context {A B : Type}.
Variable P : world -> Prop.






End Maintains.

Section Conservation.

Variable E : platform.
Variable context : Context.
Variable place taskFile : string.

#[local] Abbreviation kept := (kept_file context place taskFile).























End Conservation.


(** ** What [processOneTask] returns *)

Lemma ends_true_ret : ends_true (ret true).
Proof. by intros w w' b [= <- <-]. Qed.

Lemma ends_true_throw (error : string) : ends_true (throw error).
Proof. by intros w w' b [=]. Qed.

Lemma ends_true_bind {A} (m : M A) (k : A -> M bool) :
  (forall a, ends_true (k a)) -> ends_true (bind m k).
Proof.
  intros Hk w w' b. unfold bind. destruct (m w) as [[a|error] w1]; [|done].
  apply Hk.
Qed.

Lemma ends_true_caught (m : M bool) (handler : string -> M bool) :
  ends_true m -> (forall error, ends_true (handler error)) ->
  ends_true (let* done := trying m in
             match done with
             | Throw error => handler error
             | Ok processed => ret processed
             end).
Proof.
  intros Hm Hh w w' b. unfold bind, trying.
  destruct (m w) as [[processed|error] w1] eqn:Hrun.
  - intros [= <- <-]. by eapply Hm.
  - apply Hh.
Qed.

Ltac ends :=
  repeat first
    [ apply ends_true_ret | apply ends_true_throw
    | apply ends_true_bind; intros ?
    | match goal with
      | |- ends_true (match ?x with _ => _ end) => destruct x
      end ].

Lemma ends_true_processClaimed E context claimed :
  ends_true (processClaimed E context claimed).
Proof.
  unfold processClaimed, failInvalidJson, failMissingPrompt. cbv zeta.
  apply ends_true_bind. intros loopStamp. apply ends_true_bind. intros parsed.
  assert (Hcatch : forall taskId agent runDir worktree error,
             ends_true (onRuntimeException E context claimed taskId agent runDir worktree error)).
  { intros. unfold onRuntimeException. ends. }
  destruct parsed as [parsedTask|error]; [|ends].
  destruct parsedTask; try apply ends_true_throw.
  all: destruct (String.eqb _ ""); [ends|].
  all: destruct (pickAgent _ _ _) as [agent|]; [|ends].
  all: do 5 (apply ends_true_bind; intros ?).
  all: apply ends_true_bind; intros [worktree|error]; [|apply Hcatch].
  all: apply ends_true_caught; [|apply Hcatch].
  all: unfold execute, settle; ends.
Qed.

(** X20. [processOneTask] returns [false] exactly when the inbox holds no
    file whose name ends with [.json] (it may hold other files, or not
    exist), and then it has changed nothing: in every other case it
    returns [true] or throws. *)
Theorem processOneTask_is_idle_on_an_empty_inbox (E : platform) (context : Context)
    (w w' : world) :
  processOneTask E context w = (Ok false, w') <->
  w' = w /\
  forall fileName,
    is_Some (Fs.file (fs w) (inbox (dirs context)) fileName) ->
    Str.ends_with fileName ".json" = false.
Proof.
  destruct (listFiles_ok E (inbox (dirs context)) ".json" w) as [files Hlist].
  destruct (listFiles_spec E _ _ _ _ Hlist) as [_ Hmem].
  unfold processOneTask. rewrite (bind_ok _ _ _ _ _ Hlist).
  destruct files as [|claimed rest].
  - split.
    + intros [= <-]. split; [done|]. intros fileName Hfile.
      destruct (Str.ends_with fileName ".json") eqn:Hsuffix; [|done].
      destruct (Hmem fileName) as [_ Hin]. by apply elem_of_nil in Hin.
    + by intros [-> _].
  - split.
    + intros Hrun. exfalso. destruct (agents context) as [|agent others].
      * revert Hrun. unfold bind. by destruct (log E _ _ w) as [[[]|?] ?].
      * assert (Hends : ends_true (processFile E context claimed)).
        { unfold processFile. apply ends_true_bind. intros [[]|error];
            [apply ends_true_processClaimed|apply ends_true_ret]. }
        by apply Hends in Hrun.
    + intros [_ Hnone]. destruct (Hmem claimed) as [[Hfile Hsuffix] _]; [by left|].
      by rewrite (Hnone claimed Hfile) in Hsuffix.
Qed.

(** ** The queue when nothing can be run *)

(** X21. When a task is pending and no agent is available,
    [processOneTask] returns [true], prints one line and leaves every file
    where it is: nothing is claimed, logged or started. *)
Theorem no_agent_leaves_the_queue (E : platform) (context : Context) (w : world)
    (fileName text : string) :
  agents context = [] ->
  Fs.file (fs w) (inbox (dirs context)) fileName = Some text ->
  Str.ends_with fileName ".json" = true ->
  exists w',
    processOneTask E context w = (Ok true, w') /\
    fs w' = fs w /\ events w' = events w /\ spawned w' = spawned w /\
    console w' = console w ++
      ["[" +:+ toISOString E (clock E (ticks w)) +:+ "] " +:+
       "Tasks pending, but no available agent tools detected."].
Proof.
  intros Hagents Hfile Hsuffix. unfold processOneTask.
  destruct (listFiles_ok E (inbox (dirs context)) ".json" w) as [files Hlist].
  rewrite (bind_ok _ _ _ _ _ Hlist).
  destruct (listFiles_spec E _ _ _ _ Hlist) as [_ Hmem].
  destruct files as [|f rest].
  { destruct (Hmem fileName) as [_ Hin].
    assert (Hnil : fileName ∈ @nil string) by (apply Hin; eauto).
    by apply elem_of_nil in Hnil. }
  rewrite Hagents. unfold log.
  erewrite bind_ok; cycle 1.
  { erewrite bind_ok; [reflexivity|apply nowIso_run]. }
  eexists. split; [reflexivity|]. done.
Qed.

(** ** The counters of a task *)

Lemma get_set_eq (o : obj) (k : string) (v : jsval) : Js.get (Js.set o k v) k = v.
Proof.
  induction o as [|[k' v'] o IH]; simpl.
  - by rewrite String.eqb_refl.
  - destruct (String.eqb k' k) eqn:Hk; simpl; [by rewrite String.eqb_refl|].
    by rewrite Hk.
Qed.

Lemma get_set_ne (o : obj) (k k' : string) (v : jsval) :
  k <> k' -> Js.get (Js.set o k v) k' = Js.get o k'.
Proof.
  intros Hne. induction o as [|[k0 v0] o IH]; simpl.
  - by apply String.eqb_neq in Hne as ->.
  - destruct (String.eqb k0 k) eqn:Hk; simpl.
    + apply String.eqb_eq in Hk as ->. by apply String.eqb_neq in Hne as ->.
    + by rewrite IH.
Qed.

Lemma requeuedTask_counters (E : platform) (context : Context) (task : obj)
    (result : SpawnResult) (tried : string) :
  succ_lt (attempt_of E task) (maxAttempts_of E context task) = true ->
  let task' := requeuedTask E task result tried in
  attempt_of E task' = plus_one (attempt_of E task) /\
  maxAttempts_of E context task' = maxAttempts_of E context task /\
  forall k, k <> "attempt" -> k <> "lastError" -> k <> "lastTriedAt" ->
            Js.get task' k = Js.get task k.
Proof.
  intros Hlt task'.
  assert (Hother : forall k, k <> "attempt" -> k <> "lastError" -> k <> "lastTriedAt" ->
                             Js.get task' k = Js.get task k).
  { intros k H1 H2 H3. subst task'. unfold requeuedTask.
    by rewrite !get_set_ne by done. }
  split; [|split; [|done]].
  - destruct (attempt_of E task) as [a|] eqn:Ha; [|done].
    unfold attempt_of at 1. subst task'. unfold requeuedTask.
    rewrite !get_set_ne by done. rewrite get_set_eq, Ha. reflexivity.
  - unfold maxAttempts_of. by rewrite Hother.
Qed.



(** ** The command line *)

Lemma eachArg_flags (Number_ : string -> number) (argv : list string) (start options : Options) :
  eachArg Number_ argv start = Parsed options ->
  ("--help" ∉ argv) /\
  (once options = true <-> once start = true \/ "--once" ∈ argv) /\
  ("--home" ∈ argv -> home options <> "") /\
  (home options = home start \/
   exists before after, argv = before ++ "--home" :: home options :: after).
Proof.
  revert start. induction argv as [argv IH] using (induction_ltof1 _ (@length string)).
  unfold ltof in IH. intros start. destruct argv as [|key rest]; simpl.
  { intros [= <-]. split; [by intros ?%elem_of_nil|]. split.
    - split; [by left|]. by intros [?|?%elem_of_nil].
    - split; [by intros ?%elem_of_nil|by left]. }
  destruct (String.eqb key "--help" || String.eqb key "-h") eqn:Hhelp; [done|].
  apply orb_false_iff in Hhelp as [Hhelp%String.eqb_neq Hh%String.eqb_neq].
  destruct (String.eqb key "--once") eqn:Honce.
  { apply String.eqb_eq in Honce as ->. intros Hrun.
    destruct (IH rest ltac:(simpl; lia) _ Hrun) as (Hnohelp & Honce & Hhome & Hlast).
    simpl in *. split; [|split; [|split]].
    - intros [?|?]%elem_of_cons; done.
    - split; [intros _; right; by left|]. intros _. apply Honce. by left.
    - intros [?|?]%elem_of_cons; [done|by apply Hhome].
    - destruct Hlast as [?|(before & after & ->)]; [by left|].
      right. by exists ("--once" :: before), after. }
  apply String.eqb_neq in Honce.
  destruct (String.eqb key "--home" || String.eqb key "--poll-ms") eqn:Hkey; [|done].
  destruct rest as [|value tail]; [done|].
  destruct (String.eqb value "" || String.prefix "--" value) eqn:Hvalue; [done|].
  apply orb_false_iff in Hvalue as [Hempty%String.eqb_neq Hdashes].
  assert (Hplain : forall flag, String.prefix "--" flag = true -> value <> flag).
  { intros flag Hflag ->. congruence. }
  destruct (String.eqb key "--home") eqn:Hishome.
  - apply String.eqb_eq in Hishome as ->. intros Hrun.
    destruct (IH tail ltac:(simpl; lia) _ Hrun) as (Hnohelp & Hon & Hhome & Hlast).
    simpl in *. split; [|split; [|split]].
    + intros [?|[?|?]%elem_of_cons]%elem_of_cons; [done| |done].
      by eapply (Hplain "--help").
    + rewrite Hon. split; [intros [?|?]; [by left|right; by do 2 right]|].
      intros [?|[?|[?|?]%elem_of_cons]%elem_of_cons]; [by left|done| |by right].
      exfalso. by eapply (Hplain "--once").
    + intros _. destruct Hlast as [->|(before & after & Heq)]; [done|].
      apply Hhome. rewrite Heq. apply elem_of_app. right. by left.
    + right. destruct Hlast as [->|(before & after & ->)].
      * by exists [], tail.
      * by exists ("--home" :: value :: before), after.
  - apply orb_true_iff in Hkey as [Hkey|Hkey]; [congruence|].
    apply String.eqb_eq in Hkey as ->. intros Hrun.
    destruct (IH tail ltac:(simpl; lia) _ Hrun) as (Hnohelp & Hon & Hhome & Hlast).
    simpl in *. split; [|split; [|split]].
    + intros [?|[?|?]%elem_of_cons]%elem_of_cons; [done| |done].
      by eapply (Hplain "--help").
    + rewrite Hon. split; [intros [?|?]; [by left|right; by do 2 right]|].
      intros [?|[?|[?|?]%elem_of_cons]%elem_of_cons]; [by left|done| |by right].
      exfalso. by eapply (Hplain "--once").
    + intros [?|[?|?]%elem_of_cons]%elem_of_cons; [done| |by apply Hhome].
      exfalso. by eapply (Hplain "--home").
    + destruct Hlast as [?|(before & after & ->)]; [by left|].
      right. by exists ("--poll-ms" :: value :: before), after.
Qed.

Lemma eachArg_poll (Number_ : string -> number) (argv : list string) (start options : Options) :
  eachArg Number_ argv start = Parsed options ->
  pollMs options = pollMs start \/
  exists before value after,
    argv = before ++ "--poll-ms" :: value :: after /\ pollMs options = Number_ value.
Proof.
  revert start. induction argv as [argv IH] using (induction_ltof1 _ (@length string)).
  unfold ltof in IH. intros start. destruct argv as [|key rest]; simpl.
  { intros [= <-]. by left. }
  destruct (String.eqb key "--help" || String.eqb key "-h"); [done|].
  destruct (String.eqb key "--once").
  { intros Hrun. destruct (IH rest ltac:(simpl; lia) _ Hrun)
      as [?|(before & value & after & -> & ?)]; [by left|].
    right. by exists (key :: before), value, after. }
  destruct (String.eqb key "--home" || String.eqb key "--poll-ms") eqn:Hkey; [|done].
  destruct rest as [|value tail]; [done|].
  destruct (String.eqb value "" || String.prefix "--" value); [done|].
  destruct (String.eqb key "--home") eqn:Hishome.
  - intros Hrun. destruct (IH tail ltac:(simpl; lia) _ Hrun)
      as [?|(before & value' & after & -> & ?)]; [by left|].
    right. by exists (key :: value :: before), value', after.
  - apply orb_true_iff in Hkey as [Hkey|Hkey]; [congruence|].
    apply String.eqb_eq in Hkey as ->. intros Hrun.
    destruct (IH tail ltac:(simpl; lia) _ Hrun)
      as [Hsame|(before & value' & after & -> & ?)].
    + right. by exists [], value, tail.
    + right. by exists ("--poll-ms" :: value :: before), value', after.
Qed.

Lemma parseArgs_parsed (Number_ : string -> number) (argv : list string) (options : Options) :
  parseArgs Number_ argv = Parsed options ->
  eachArg Number_ argv (mkOptions "" (Finite 0) false) = Parsed options /\
  Num.truthy (pollMs options) &&
    (negb (Num.isFinite (pollMs options)) || Num.lt (pollMs options) 100) = false.
Proof.
  unfold parseArgs. destruct (eachArg _ _ _) as [parsed| |]; [|done..].
  destruct (_ && _) eqn:Hcheck; [done|]. by intros [= <-].
Qed.

(** X24. When [parseArgs] returns, [--help] is not among the arguments,
    [once] is set exactly when [--once] is given, and [home] is empty when
    no [--home] is given and is otherwise a non-empty value that follows a
    [--home]. *)
Theorem parseArgs_reads_the_flags (Number_ : string -> number) (argv : list string)
    (options : Options) :
  parseArgs Number_ argv = Parsed options ->
  ("--help" ∉ argv) /\
  (once options = true <-> "--once" ∈ argv) /\
  (("--home" ∉ argv) /\ home options = "" \/
   home options <> "" /\
   exists before after, argv = before ++ "--home" :: home options :: after).
Proof.
  intros [Hrun _]%parseArgs_parsed.
  destruct (eachArg_flags _ _ _ _ Hrun) as (Hhelp & Honce & Hhome & Hlast). simpl in *.
  split; [done|]. split.
  { rewrite Honce. split; [by intros [?|?]|by right]. }
  destruct (decide ("--home" ∈ argv)) as [Hin|Hnot].
  - right. split; [by apply Hhome|]. destruct Hlast as [Hempty|?]; [|done].
    by destruct (Hhome Hin).
  - left. split; [done|]. destruct Hlast as [?|(before & after & ->)]; [done|].
    destruct Hnot. apply elem_of_app. right. by left.
Qed.

(** X25. When [parseArgs] returns, [pollMs] is the initial 0 or the number
    read from a value that follows a [--poll-ms]; it is never infinite and
    never a number other than 0 below 100; a value that is not a number
    ([NaN]) is let through. *)
Theorem parseArgs_poll_interval (Number_ : string -> number) (argv : list string)
    (options : Options) :
  parseArgs Number_ argv = Parsed options ->
  (pollMs options = Finite 0 \/
   exists before value after,
     argv = before ++ "--poll-ms" :: value :: after /\ pollMs options = Number_ value) /\
  match pollMs options with
  | NaN => True
  | Infinity _ => False
  | Finite q => (q == 0)%Q \/ (100 <= q)%Q
  end.
Proof.
  intros [Hrun Hcheck]%parseArgs_parsed. split; [by apply (eachArg_poll _ _ _ _ Hrun)|].
  destruct (pollMs options) as [|negative|q]; simpl in *; [done|done|].
  destruct (Qeq_bool q 0) eqn:Hzero; simpl in Hcheck.
  - left. by apply Qeq_bool_iff.
  - right. apply negb_false_iff in Hcheck. by apply Qle_bool_iff.
Qed.

(** ** The configuration *)

Lemma get_absent (o : obj) (k : string) : k ∉ o.*1 -> Js.get o k = JUndefined.
Proof.
  induction o as [|[k' v'] o IH]; simpl; [done|]. intros Hnot.
  destruct (String.eqb k' k) eqn:Hk.
  - apply String.eqb_eq in Hk as ->. destruct Hnot. by left.
  - apply IH. intros ?. apply Hnot. by right.
Qed.

Lemma get_spread (target fields : obj) (k : string) :
  NoDup fields.*1 ->
  Js.get (fold_left (fun o kv => Js.set o kv.1 kv.2) fields target) k
  = if decide (k ∈ fields.*1) then Js.get fields k else Js.get target k.
Proof.
  revert target. induction fields as [|[k0 v0] fields IH]; intros target Hnd; [done|].
  simpl in *. apply NoDup_cons in Hnd as [Hk0 Hnd]. rewrite IH by done.
  destruct (String.eqb k0 k) eqn:Hk.
  - apply String.eqb_eq in Hk as ->.
    rewrite decide_False by done. rewrite decide_True by (by left). apply get_set_eq.
  - apply String.eqb_neq in Hk.
    destruct (decide (k ∈ fields.*1)) as [Hin|Hnot].
    + by rewrite decide_True by (by right).
    + rewrite decide_False by (by intros [?|?]%elem_of_cons). by apply get_set_ne.
Qed.

Lemma loadConfig_run (E : platform) (dir fileName : string) (w : world) :
  exists config w',
    loadConfig E dir fileName w = (Ok config, w') /\
    fs w' = fs w /\ events w' = events w /\ spawned w' = spawned w /\
    match Fs.file (fs w) dir fileName with
    | None => config = DEFAULT_CONFIG /\ w' = w
    | Some text =>
        match JSON_parse E text with
        | Ok value => config = spread DEFAULT_CONFIG value /\ w' = w
        | Throw error =>
            config = DEFAULT_CONFIG /\
            console w' = console w ++
              ["[" +:+ toISOString E (clock E (ticks w)) +:+ "] " +:+
               "Invalid config file at " +:+ path_join dir fileName +:+ "; using defaults."]
              ++ (if String.eqb error "" then [] else [error])
        end
    end.
Proof.
  unfold loadConfig. destruct (Fs.file (fs w) dir fileName) as [text|] eqn:Hfile.
  - unfold bind, trying, readJson. rewrite Hfile.
    destruct (JSON_parse E text) as [value|error].
    + by eexists _, _.
    + unfold log, bind, nowIso, Date_now, ret. eexists _, _. split; [reflexivity|].
      cbn [fs events spawned console add_console next_tick]. done.
  - by eexists _, _.
Qed.

(** X26. [loadConfig] never throws and writes nothing: without a file it
    returns the defaults, with a file that parses the defaults overridden
    by the parsed value, and with a file that does not parse the defaults,
    after it has printed a line and the error. *)
Theorem loadConfig_never_throws (E : platform) (dir fileName : string) (w : world) :
  exists config w',
    loadConfig E dir fileName w = (Ok config, w') /\
    fs w' = fs w /\ events w' = events w /\ spawned w' = spawned w /\
    match Fs.file (fs w) dir fileName with
    | None => config = DEFAULT_CONFIG /\ w' = w
    | Some text =>
        match JSON_parse E text with
        | Ok value => config = spread DEFAULT_CONFIG value /\ w' = w
        | Throw error =>
            config = DEFAULT_CONFIG /\
            console w' = console w ++
              ["[" +:+ toISOString E (clock E (ticks w)) +:+ "] " +:+
               "Invalid config file at " +:+ path_join dir fileName +:+ "; using defaults."]
              ++ (if String.eqb error "" then [] else [error])
        end
    end.
Proof. apply loadConfig_run. Qed.

(** X27. When the configuration file holds an object, every key of the
    object has the value of the file in the configuration, and every other
    key the value of [DEFAULT_CONFIG] ([undefined] when it has none). *)
Theorem loadConfig_overrides_the_defaults (E : platform) (dir fileName text : string)
    (fields : obj) (w : world) :
  Fs.file (fs w) dir fileName = Some text ->
  JSON_parse E text = Ok (JObj fields) ->
  NoDup fields.*1 ->
  exists config,
    loadConfig E dir fileName w = (Ok config, w) /\
    forall key,
      Js.get config key
      = if decide (key ∈ fields.*1) then Js.get fields key else Js.get DEFAULT_CONFIG key.
Proof.
  intros Hfile Hparse Hnd. unfold loadConfig, bind, trying, readJson. rewrite Hfile, Hparse.
  eexists. split; [reflexivity|]. intros key. by apply get_spread.
Qed.

(** X28. Under the default configuration (no file, or a file that does not
    parse) a new task that sets no [maxAttempts] may be tried twice: its
    first failure is retried, and the failure of the requeued task is
    not. *)
Theorem default_configuration_allows_one_retry (E : platform) (dir fileName : string)
    (w w' : world) (loaded : obj) (context : Context) (task : obj) :
  loadConfig E dir fileName w = (Ok loaded, w') ->
  (forall text, Fs.file (fs w) dir fileName = Some text ->
     exists error, JSON_parse E text = Throw error) ->
  config context = loaded ->
  Js.get task "maxAttempts" = JUndefined ->
  Js.get task "attempt" = JUndefined ->
  maxAttempts_of E context task = Some 2 /\
  succ_lt (attempt_of E task) (maxAttempts_of E context task) = true /\
  forall result tried,
    succ_lt (attempt_of E (requeuedTask E task result tried))
      (maxAttempts_of E context (requeuedTask E task result tried)) = false.
Proof.
  intros Hload Hbad Hconfig Hmax Hattempt.
  assert (Hdefault : loaded = DEFAULT_CONFIG).
  { destruct (loadConfig_run E dir fileName w) as (c & w1 & Hrun & _ & _ & _ & Hcase).
    rewrite Hload in Hrun. injection Hrun as <- <-.
    destruct (Fs.file (fs w) dir fileName) as [text|]; [|by destruct Hcase].
    destruct (Hbad text eq_refl) as [error Herr]. rewrite Herr in Hcase. by destruct Hcase. }
  assert (Hm : maxAttempts_of E context task = Some 2).
  { unfold maxAttempts_of. rewrite Hmax, Hconfig, Hdefault. reflexivity. }
  assert (Ha : attempt_of E task = Some 0).
  { unfold attempt_of. rewrite Hattempt. reflexivity. }
  split; [done|]. split; [by rewrite Hm, Ha|].
  intros result tried.
  destruct (requeuedTask_counters E context task result tried) as (-> & -> & _).
  { by rewrite Hm, Ha. }
  by rewrite Hm, Ha.
Qed.

(** ** The startup *)

Lemma recoverEach_keeps_dirs (E : platform) (processingDir inboxDir : string)
    (stale : list string) (w w' : world) (r : outcome unit) (dir : string) :
  recoverEach E processingDir inboxDir stale w = (r, w') ->
  has_dir (fs w) dir -> has_dir (fs w') dir.
Proof.
  revert w. induction stale as [|f rest IH]; intros w; simpl.
  { by intros [= <- <-]. }
  unfold bind, renameSync, mutate.
  destruct (io_error E (writes w)); [by intros [= <- <-]|].
  destruct (Fs.rename (fs w) processingDir f inboxDir ("recovered-" +:+ f)) as [x|] eqn:Hrename;
    [|by intros [= <- <-]].
  intros Hrest Hdir. eapply IH; [exact Hrest|]. cbn [fs set_fs next_write].
  unfold Fs.rename in Hrename. destruct (Fs.file _ _ _); [|done].
  destruct (fs w !! inboxDir); [|done]. injection Hrename as <-.
  by apply has_dir_put, has_dir_remove.
Qed.

Lemma made_dirs (E : platform) (dirPaths : list string) (w : world) :
  (forall n, io_error E n = None) ->
  exists w',
    foldr (fun dirPath rest => let* _ := ensureDir E dirPath in rest) (ret tt) dirPaths w
    = (Ok tt, w') /\
    (forall dir fileName, Fs.file (fs w') dir fileName = Fs.file (fs w) dir fileName) /\
    (forall dir, has_dir (fs w') dir <-> dir ∈ dirPaths \/ has_dir (fs w) dir) /\
    events w' = events w /\ spawned w' = spawned w.
Proof.
  intros Hio. revert w. induction dirPaths as [|d rest IH]; intros w; simpl.
  { exists w. split; [done|]. split; [done|]. split; [|done]. intros dir. split; [by right|].
    by intros [?%elem_of_nil|?]. }
  erewrite bind_ok; [|by apply ensureDir_run].
  destruct (IH (set_fs (next_write w) (Fs.mkdir (fs w) d))) as (w' & Hrun & Hfiles & Hdirs & Hev & Hsp).
  exists w'. split; [done|]. cbn [fs events spawned set_fs next_write] in *.
  split; [|split; [|done]].
  - intros dir fileName. by rewrite Hfiles, file_mkdir.
  - intros dir. rewrite Hdirs, has_dir_mkdir, elem_of_cons. intuition (subst; auto).
Qed.

(** X29. The startup, when no I/O fails: all the directories of the home
    exist, every [.json] file that was in [processing] is in the inbox
    under [recovered-<name>] with its content, no [.json] file is left in
    [processing], and nothing is logged or started. *)
Theorem prepareHome_leaves_no_task_in_processing (E : platform) (homeDir : string) (w : world) :
  (forall n, io_error E n = None) ->
  let dirs := homeDirs homeDir in
  exists w',
    prepareHome E homeDir w = (Ok tt, w') /\
    Forall (has_dir (fs w'))
      [homeDir; inbox dirs; processing dirs; completed dirs; failed dirs; runs dirs;
       worktrees dirs; path_join homeDir "agents"] /\
    (forall fileName,
        is_Some (Fs.file (fs w') (processing dirs) fileName) ->
        Str.ends_with fileName ".json" = false) /\
    (forall fileName content,
        Fs.file (fs w) (processing dirs) fileName = Some content ->
        Str.ends_with fileName ".json" = true ->
        Fs.file (fs w') (inbox dirs) ("recovered-" +:+ fileName) = Some content) /\
    events w' = events w /\ spawned w' = spawned w.
Proof.
  intros Hio dirs.
  set (dirPaths := [homeDir; inbox dirs; processing dirs; completed dirs; failed dirs;
                    runs dirs; worktrees dirs; path_join homeDir "agents"]).
  destruct (made_dirs E dirPaths w Hio) as (w1 & Hmade & Hfiles1 & Hdirs1 & Hev1 & Hsp1).
  assert (Hapart : processing dirs <> inbox dirs).
  { intros H. symmetry in H. revert H.
    by apply (inbox_ne_processing (mkContext [] dirs [] "" "") homeDir). }
  assert (Hall : forall dir, dir ∈ dirPaths -> has_dir (fs w1) dir).
  { intros dir Hdir. apply Hdirs1. by left. }
  destruct (listFiles_ok E (processing dirs) ".json" w1) as [stale Hstale].
  destruct (listFiles_spec E _ _ _ _ Hstale) as [Hnd Hmem].
  destruct (recoverEach_run E Hio (processing dirs) (inbox dirs) Hapart stale w1 Hnd)
    as (w2 & Hrun & Hmoved & Hkept).
  { intros f Hf. by apply Hmem. }
  { apply Hall. subst dirPaths. right. by left. }
  assert (Hlog : exists w',
             (if (0 <? length stale)%nat
              then log E ("Recovered " +:+ pretty (length stale) +:+
                            " task(s) from processing back to inbox.") ""
              else ret tt) w2 = (Ok tt, w') /\ fs w' = fs w2 /\
             events w' = events w2 /\ spawned w' = spawned w2).
  { destruct (0 <? length stale)%nat; [apply log_fs|by exists w2]. }
  destruct Hlog as (w' & Hlogged & Hfs & Hev & Hsp).
  assert (Hquiet2 : events w2 = events w1 /\ spawned w2 = spawned w1).
  { clear -Hrun. revert w1 Hrun. induction stale as [|f rest IH]; intros w1; simpl.
    { by intros [= <-]. }
    unfold bind, renameSync, mutate. destruct (io_error E (writes w1)); [done|].
    destruct (Fs.rename _ _ _ _ _); [|done]. intros Hrest.
    by destruct (IH _ Hrest) as [-> ->]. }
  destruct Hquiet2 as [Hev2 Hsp2].
  exists w'. split.
  { assert (Heq : prepareHome E homeDir w
                   = bind (foldr (fun dirPath rest => let* _ := ensureDir E dirPath in rest)
                             (ret tt) dirPaths)
                       (fun _ => recoverProcessing E (processing dirs) (inbox dirs)) w).
    { unfold prepareHome, bind. subst dirPaths. simpl.
      repeat match goal with
             | |- context [ensureDir E ?d ?w0] =>
                 destruct (ensureDir E d w0) as [[[]|?] ?]; simpl; [|reflexivity]
             end.
      reflexivity. }
    rewrite Heq, (bind_ok _ _ _ _ _ Hmade). unfold recoverProcessing.
    rewrite (bind_ok _ _ _ _ _ Hstale), (bind_ok _ _ _ _ _ Hrun). exact Hlogged. }
  rewrite Hfs, Hev, Hsp, Hev2, Hsp2. split; [|split; [|split; [|done]]].
  - apply Forall_forall. intros dir Hdir.
    eapply recoverEach_keeps_dirs; [exact Hrun|]. by apply Hall.
  - intros f Hsome. destruct (Str.ends_with f ".json") eqn:Hsuffix; [|done]. exfalso.
    destruct (decide (f ∈ stale)) as [Hin|Hnot].
    + destruct (Hmem f) as [[[c Hc] _] _]; [done|].
      destruct (Hmoved f c Hin Hc) as [_ Hgone]. rewrite Hgone in Hsome. by destruct Hsome.
    + rewrite Hkept in Hsome; [|done|by intros ?]. apply Hnot, Hmem. done.
  - intros f c Hc Hsuffix. rewrite <- Hfiles1 in Hc.
    apply Hmoved; [|done]. apply Hmem. eauto.
Qed.

(** ** One turn of the loop *)


(** * Examples on the concrete host *)


Lemma demo_inbox (files : list (string * string)) :
  fs (Demo.home files) !! inbox Demo.dirs = Some (list_to_map files).
Proof. unfold Demo.home. cbn [fs]. apply lookup_insert_eq. Qed.

Lemma demo_processing (files : list (string * string)) :
  has_dir (fs (Demo.home files)) (processing Demo.dirs).
Proof.
  unfold Demo.home, has_dir. cbn [fs]. rewrite lookup_insert_ne by done.
  rewrite lookup_insert_eq. eauto.
Qed.

(** In a home whose inbox holds one task file, that file is pending. *)
Lemma demo_pending (E : platform) (agents : list Agent) (fileName text : string) :
  localeCompare E = Demo.compare ->
  agents <> [] ->
  Str.ends_with fileName ".json" = true ->
  pending E (Demo.context [] agents) (Demo.home [(fileName, text)]) fileName text.
Proof.
  intros Hcmp Hagents Hsuffix. unfold pending, listFiles, Fs.file.
  cbn [dirs Demo.context]. rewrite demo_inbox.
  repeat split; [|apply lookup_insert_eq|apply demo_processing|done].
  exists []. simpl. rewrite insert_empty, map_to_list_singleton. simpl. by rewrite Hsuffix.
Qed.



(** The router on a registry of two agents, for a task that names the
    second one. *)
Lemma pickAgent_priority_witness :
  pickAgent [("agent", JStr "codex")] [Demo.claude; Demo.codex] [] = Some Demo.codex.
Proof.
  destruct (pickAgent_priority [("agent", JStr "codex")] [Demo.claude; Demo.codex] [])
    as [_ Hselect].
  - repeat constructor.
  - rewrite Hselect. reflexivity.
Defined.




(** A file that is not JSON goes to [failed] as it is. *)
Lemma invalid_json_fails_witness :
  exists w',
    processOneTask (Demo.host [] [] (Demo.exits 0 "") Demo.reliable)
      (Demo.context [] [Demo.claude]) (Demo.home [("b.json", "{oops")]) = (Ok true, w') /\
    failed_as (Demo.context [] [Demo.claude]) (Demo.home [("b.json", "{oops")]) w'
      "b.json" "{oops" "invalid_json" /\
    spawned w' = [].
Proof.
  apply (invalid_json_fails (Demo.host [] [] (Demo.exits 0 "") Demo.reliable)
           (Demo.context [] [Demo.claude]) "/home" (Demo.home [("b.json", "{oops")])
           "b.json" "{oops" "SyntaxError: Unexpected token in JSON").
  - reflexivity.
  - reflexivity.
  - apply demo_pending; [reflexivity|discriminate|reflexivity].
  - reflexivity.
Defined.


(** After a crash that left [t.json] in [processing], the startup puts it
    back into the inbox as [recovered-t.json], unchanged. *)
Lemma recoverProcessing_renames_witness :
  exists w',
    recoverProcessing (Demo.host [] [] (Demo.exits 0 "") Demo.reliable)
      (processing Demo.dirs) (inbox Demo.dirs) Demo.crashed = (Ok tt, w') /\
    Fs.file (fs w') (inbox Demo.dirs) "recovered-t.json" = Some (Demo.stringify Demo.task_twice) /\
    Fs.file (fs w') (processing Demo.dirs) "t.json" = None.
Proof.
  destruct (recoverProcessing_renames (Demo.host [] [] (Demo.exits 0 "") Demo.reliable)
              (fun _ => eq_refl) (processing Demo.dirs) (inbox Demo.dirs))
    with (w := Demo.crashed) as (w' & Hrun & Hfiles).
  - discriminate.
  - unfold has_dir, Demo.crashed. cbn [fs]. rewrite lookup_insert_eq. eauto.
  - exists w'. split; [exact Hrun|].
    apply (Hfiles "t.json" (Demo.stringify Demo.task_twice)); reflexivity.
Defined.

(** Two daemons and one task file: the second claim fails and its daemon
    returns without touching anything. *)
Lemma claim_is_exclusive_witness :
  let w1 := claimed (Demo.context [] [Demo.claude])
              (Demo.home [("a.json", Demo.stringify Demo.task_twice)])
              "a.json" (Demo.stringify Demo.task_twice) in
  processFile (Demo.host [Demo.task_twice] [] (Demo.exits 0 "") Demo.reliable)
    (Demo.context [] [Demo.codex]) "a.json" w1 = (Ok true, next_write w1) /\
  spawned (next_write w1) = [].
Proof.
  destruct (claim_is_exclusive (Demo.host [Demo.task_twice] [] (Demo.exits 0 "") Demo.reliable)
              (Demo.context [] [Demo.claude]) (Demo.context [] [Demo.codex]) "/home"
              (Demo.home [("a.json", Demo.stringify Demo.task_twice)])
              "a.json" (Demo.stringify Demo.task_twice))
    as (_ & _ & Hskip & _ & _ & Hspawned).
  - reflexivity.
  - reflexivity.
  - reflexivity.
  - unfold Fs.file. cbn [dirs Demo.context]. rewrite demo_inbox. apply lookup_insert_eq.
  - apply demo_processing.
  - split; [exact Hskip|exact Hspawned].
Defined.

(** ** Errors that leave [processOneTask] *)

(** C7 fails on the code. The run directory is made, and the snapshot
    written, before the [try] of lines 401-502: when the disk refuses the
    directory, the error leaves [processOneTask], the daemon exits with
    code 1, and the task stays in [processing] with no event logged. *)
Lemma snapshot_failure_stops_the_daemon :
  let run :=
    processOneTask
      (Demo.host [Demo.task_twice] [] (Demo.exits 0 "")
         (Demo.failing_at 1 "Error: ENOSPC: no space left on device, mkdir"))
      (Demo.context [] [Demo.claude])
      (Demo.home [("a.json", Demo.stringify Demo.task_twice)]) in
  run.1 = Throw "Error: ENOSPC: no space left on device, mkdir" /\
  daemon_exit run = Some 1 /\
  Fs.file (fs run.2) (processing Demo.dirs) "a.json" = Some (Demo.stringify Demo.task_twice) /\
  Fs.file (fs run.2) (failed Demo.dirs) "1700000000000-a.json" = None /\
  events run.2 = [].
Proof. cbv zeta. repeat split; vm_compute; reflexivity. Qed.

(** A task file that holds the JSON value [null]: line 373 reads [task.id]
    outside any [try], and the [TypeError] leaves [processOneTask]. *)
Lemma null_task_stops_the_daemon :
  let run :=
    processOneTask (Demo.host [JNull] [] (Demo.exits 0 "") Demo.reliable)
      (Demo.context [] [Demo.claude]) (Demo.home [("a.json", "null")]) in
  run.1 = Throw "TypeError: Cannot read properties of null (reading 'id')" /\
  daemon_exit run = Some 1 /\
  Fs.file (fs run.2) (processing Demo.dirs) "a.json" = Some "null" /\
  events run.2 = [].
Proof. cbv zeta. repeat split; vm_compute; reflexivity. Qed.

(** The agent succeeds and the task is moved to [completed], then the
    event cannot be appended to the log: the [catch] tries to move the
    file from [processing], where it no longer is, and its own error
    leaves [processOneTask]. *)
Lemma handler_failure_stops_the_daemon :
  let run :=
    processOneTask
      (Demo.host [Demo.task_twice] [] (Demo.exits 0 "")
         (Demo.failing_at 9 "Error: EIO: i/o error, write"))
      (Demo.context [] [Demo.claude])
      (Demo.home [("a.json", Demo.stringify Demo.task_twice)]) in
  run.1 = Throw "Error: ENOENT: no such file or directory, rename" /\
  daemon_exit run = Some 1 /\
  events run.2 = [].
Proof. cbv zeta. repeat split; vm_compute; reflexivity. Qed.

(** Inside the [try], an error is caught: when the worktree cannot be
    created the task goes to [failed] with the reason [runtime_exception]
    and the text of the error, and [processOneTask] returns. *)
Lemma worktree_failure_is_caught :
  let run :=
    processOneTask
      (Demo.host [Demo.task_twice] []
         (fun _ => Ok (mkResult (Some 128) None "" "fatal: not a git repository"))
         Demo.reliable)
      (Demo.context [] [Demo.codex])
      (Demo.home [("a.json", Demo.stringify Demo.task_twice)]) in
  run.1 = Ok true /\
  daemon_exit run = None /\
  Fs.file (fs run.2) (failed Demo.dirs) "1700000000004-a.json"
  = Some (Demo.stringify Demo.task_twice) /\
  exists payload,
    events run.2 = [("/home/daemon.log", payload)] /\
    Js.get (Js.props payload) "reason" = JStr "runtime_exception" /\
    Js.get (Js.props payload) "error"
    = JStr "Error: git worktree add failed: fatal: not a git repository".
Proof.
  cbv zeta. split; [|split; [|split]]; try (vm_compute; reflexivity).
  eexists. split; [vm_compute; reflexivity|]. split; reflexivity.
Qed.

(** ** The properties of the code, run *)

Lemma slugify_keeps_a_clean_id_witness : Slug.slugify (JStr "task42") = "task42".
Proof. apply slugify_keeps_a_clean_id; [discriminate|reflexivity|simpl; lia]. Defined.

Lemma compact_iso_witness :
  Slug.compact "2024-01-02T03:04:05.678Z" = "20240102-030405678Z".
Proof. apply (compact_iso "2024" "01" "02" "03" "04" "05" "678"). reflexivity. Defined.

Lemma createWorktree_names_witness :
  exists directory,
    every_char not_slash directory = true /\
    "/home/worktrees/autodelegate__codex-t1-1700000000000" = path_join "/home/worktrees" directory.
Proof.
  edestruct (createWorktree_names (Demo.host [] [] (Demo.exits 0 "") Demo.reliable)
               "/repo" "/home/worktrees" (JStr "codex") (JStr "t1") (Demo.home []))
    as (stamp & directory & _ & _ & Hpath & Hflat & _).
  - vm_compute. reflexivity.
  - exists directory. split; [exact Hflat|exact Hpath].
Defined.

(** The comparison of the concrete host is consistent. *)
Lemma demo_compare_no_later (a b : string) :
  no_later Demo.compare a b <-> String.compare a b <> Gt.
Proof. unfold no_later, Demo.compare. destruct (String.compare a b); split; try done; lia. Qed.

Lemma demo_compare_consistent : consistent Demo.compare.
Proof.
  split.
  - intros a b. rewrite !demo_compare_no_later, (String.compare_antisym b a).
    destruct (String.compare a b); simpl; [by left|by left|by right].
  - intros a b c. rewrite !demo_compare_no_later. intros Hab Hbc.
    destruct (String.compare a b) eqn:Eab; [|clear Hab|done].
    { apply String.compare_eq_iff in Eab as ->. done. }
    destruct (String.compare b c) eqn:Ebc; [|clear Hbc|done].
    { apply String.compare_eq_iff in Ebc as <-. by rewrite Eab. }
    apply String_as_OT.cmp_lt in Eab, Ebc.
    pose proof (String_as_OT.lt_trans _ _ _ Eab Ebc) as Hac.
    apply String_as_OT.cmp_lt in Hac. unfold String_as_OT.cmp in Hac. by rewrite Hac.
Qed.

Lemma listFiles_is_sorted_witness :
  exists files,
    listFiles (Demo.host [] [] (Demo.exits 0 "") Demo.reliable) (inbox Demo.dirs) ".json"
      (Demo.home [("b.json", "2"); ("a.json", "1"); ("notes.txt", "3")])
    = (Ok files, Demo.home [("b.json", "2"); ("a.json", "1"); ("notes.txt", "3")]) /\
    StronglySorted (no_later Demo.compare) files.
Proof.
  eexists. split; [vm_compute; reflexivity|].
  eapply (listFiles_is_sorted (Demo.host [] [] (Demo.exits 0 "") Demo.reliable)
            (inbox Demo.dirs) ".json"
            (Demo.home [("b.json", "2"); ("a.json", "1"); ("notes.txt", "3")])).
  - exact demo_compare_consistent.
  - vm_compute. reflexivity.
Defined.

Lemma moveFileToDir_moves_witness :
  exists w',
    moveFileToDir (Demo.host [] [] (Demo.exits 0 "") Demo.reliable)
      (inbox Demo.dirs) "a.json" "/home/archive" "old" (Demo.home [("a.json", "1")])
    = (Ok "/home/archive/old-a.json", w') /\
    Fs.file (fs w') "/home/archive" "old-a.json" = Some "1" /\
    Fs.file (fs w') (inbox Demo.dirs) "a.json" = None.
Proof.
  destruct (moveFileToDir_moves (Demo.host [] [] (Demo.exits 0 "") Demo.reliable)
              (inbox Demo.dirs) "a.json" "/home/archive" "old" "1"
              (Demo.home [("a.json", "1")]))
    as (w' & Hrun & Htarget & Hsource & _).
  - reflexivity.
  - reflexivity.
  - exists w'. split; [exact Hrun|]. split; [exact Htarget|exact Hsource].
Defined.

Lemma registry_holds_admitted_definitions_witness :
  exists agentsDir fileName agent,
    agentsDir ∈ ["/shared"; "/home/agents"] /\
    eligible Demo.registry_host (fs (Demo.registry_world Demo.shared_claude Demo.local_claude))
      agentsDir fileName agent /\
    normalise Demo.local_claude = normalise agent.
Proof.
  eapply (registry_holds_admitted_definitions Demo.registry_host ["/shared"; "/home/agents"]
            (Demo.registry_world Demo.shared_claude Demo.local_claude)).
  - vm_compute. reflexivity.
  - by left.
Defined.

Lemma registry_names_are_distinct_witness :
  Js.strict_eq (name (normalise Demo.shared_claude)) (name (normalise Demo.shared_codex)) = false.
Proof.
  eapply (registry_names_are_distinct Demo.two_agents_host ["/shared"] Demo.two_agents _ _
            0 1).
  - vm_compute. reflexivity.
  - reflexivity.
  - reflexivity.
  - discriminate.
Defined.


Lemma pickAgent_picks_from_the_list_witness : Demo.codex ∈ [Demo.claude; Demo.codex].
Proof.
  apply (pickAgent_picks_from_the_list [("tool", JStr "codex")] [Demo.claude; Demo.codex] []).
  reflexivity.
Defined.


Lemma processOneTask_is_idle_on_an_empty_inbox_witness :
  processOneTask (Demo.host [] [] (Demo.exits 0 "") Demo.reliable)
    (Demo.context [] [Demo.claude]) (Demo.home [("notes.txt", "later")])
  = (Ok false, Demo.home [("notes.txt", "later")]).
Proof.
  apply processOneTask_is_idle_on_an_empty_inbox. split; [reflexivity|].
  intros fileName. unfold Fs.file.
  cbn [dirs Demo.context]. rewrite demo_inbox. simpl.
  destruct (decide (fileName = "notes.txt")) as [->|Hne]; [reflexivity|].
  rewrite lookup_insert_ne by done. rewrite lookup_empty. by intros [? [=]].
Defined.

Lemma no_agent_leaves_the_queue_witness :
  exists w',
    processOneTask (Demo.host [Demo.task_twice] [] (Demo.exits 0 "") Demo.reliable)
      (Demo.context [] []) (Demo.home [("a.json", Demo.stringify Demo.task_twice)])
    = (Ok true, w') /\
    fs w' = fs (Demo.home [("a.json", Demo.stringify Demo.task_twice)]).
Proof.
  destruct (no_agent_leaves_the_queue
              (Demo.host [Demo.task_twice] [] (Demo.exits 0 "") Demo.reliable)
              (Demo.context [] []) (Demo.home [("a.json", Demo.stringify Demo.task_twice)])
              "a.json" (Demo.stringify Demo.task_twice))
    as (w' & Hrun & Hfs & _).
  - reflexivity.
  - unfold Fs.file. cbn [dirs Demo.context]. rewrite demo_inbox. apply lookup_insert_eq.
  - reflexivity.
  - exists w'. split; [exact Hrun|exact Hfs].
Defined.









Lemma parseArgs_reads_the_flags_witness :
  exists options,
    parseArgs Demo.number_of ["--once"; "--home"; "/tmp/queue"] = Parsed options /\
    once options = true /\ home options = "/tmp/queue".
Proof.
  destruct (parseArgs_reads_the_flags Demo.number_of ["--once"; "--home"; "/tmp/queue"]
              (mkOptions "/tmp/queue" (Finite 0) true))
    as (_ & Honce & _).
  - reflexivity.
  - eexists. split; [reflexivity|]. split; [|reflexivity]. apply Honce. by left.
Defined.

Lemma parseArgs_poll_interval_witness :
  exists options,
    parseArgs Demo.number_of ["--poll-ms"; "250"] = Parsed options /\
    pollMs options = Finite 250.
Proof.
  destruct (parseArgs_poll_interval Demo.number_of ["--poll-ms"; "250"]
              (mkOptions "" (Finite 250) false))
    as [[Hzero|(before & value & after & _ & Hnumber)] _].
  - reflexivity.
  - discriminate Hzero.
  - eexists. split; reflexivity.
Defined.

Lemma loadConfig_overrides_the_defaults_witness :
  exists config,
    loadConfig (Demo.host [JObj Demo.five_attempts] [] (Demo.exits 0 "") Demo.reliable)
      "/home" "orchestrator.config.json" Demo.configured = (Ok config, Demo.configured) /\
    Js.get config "defaultMaxAttempts" = JNum 5 /\
    Js.get config "pollIntervalMs" = JNum 5000.
Proof.
  destruct (loadConfig_overrides_the_defaults
              (Demo.host [JObj Demo.five_attempts] [] (Demo.exits 0 "") Demo.reliable)
              "/home" "orchestrator.config.json" (Demo.stringify (JObj Demo.five_attempts))
              Demo.five_attempts Demo.configured)
    as (config & Hrun & Hget).
  - reflexivity.
  - reflexivity.
  - repeat constructor. by intros ?%elem_of_nil.
  - exists config. split; [exact Hrun|]. split.
    + rewrite (Hget "defaultMaxAttempts"). reflexivity.
    + rewrite (Hget "pollIntervalMs"). reflexivity.
Defined.

Lemma default_configuration_allows_one_retry_witness :
  maxAttempts_of (Demo.host [] [] (Demo.exits 0 "") Demo.reliable)
    (Demo.context DEFAULT_CONFIG [Demo.claude]) (Js.props Demo.task_plain) = Some 2.
Proof.
  destruct (default_configuration_allows_one_retry
              (Demo.host [] [] (Demo.exits 0 "") Demo.reliable)
              "/home" "orchestrator.config.json" (Demo.home []) (Demo.home [])
              DEFAULT_CONFIG (Demo.context DEFAULT_CONFIG [Demo.claude])
              (Js.props Demo.task_plain))
    as (Hmax & _).
  - reflexivity.
  - intros text. discriminate.
  - reflexivity.
  - reflexivity.
  - reflexivity.
  - exact Hmax.
Defined.

Lemma prepareHome_leaves_no_task_in_processing_witness :
  exists w',
    prepareHome (Demo.host [] [] (Demo.exits 0 "") Demo.reliable) "/home" Demo.crashed
    = (Ok tt, w') /\
    Fs.file (fs w') (inbox Demo.dirs) "recovered-t.json" = Some (Demo.stringify Demo.task_twice) /\
    has_dir (fs w') (failed Demo.dirs).
Proof.
  destruct (prepareHome_leaves_no_task_in_processing
              (Demo.host [] [] (Demo.exits 0 "") Demo.reliable) "/home" Demo.crashed)
    as (w' & Hrun & Hdirs & _ & Hrecovered & _).
  - reflexivity.
  - exists w'. split; [exact Hrun|]. split.
    + apply (Hrecovered "t.json"); reflexivity.
    + eapply Forall_forall in Hdirs; [exact Hdirs|]. do 4 right. by left.
Defined.
